(** * An encrypted, decentralized ledger (PySyft tutorial, part 7)

    Shallow embedding of the two ledger classes of
    [examples/tutorials/Part 7 - Build an Encrypted, Decentralized Ledger.ipynb]:

    - [SimpleLedger] (step 2 of the notebook), which keeps a running balance
      and masks the transfers that would drive a balance negative;
    - [DecentralizedLedger] (step 3), the same ledger over SMPC-shared
      tensors.

    Tensors are one-dimensional [torch.LongTensor]s: lists of 64-bit signed
    integers whose arithmetic wraps around.  Python integers are [Z]. *)

From stdpp Require Import base numbers list strings.

Local Open Scope Z_scope.

(** ** Python exceptions and the state-and-exception monad *)

Inductive error : Type :=
  | IndexError      (* index out of range, indexing an empty tensor *)
  | OverflowError   (* a Python int that does not fit a 64-bit integer *)
  | ShapeError      (* sizes of two tensors that can not be broadcast *)
  | SizeError.      (* negative dimension given to a constructor *)

Inductive result (A : Type) : Type :=
  | Ok (a : A)
  | Raise (e : error).
Arguments Ok {A} a.
Arguments Raise {A} e.

#[global] Instance result_ret : MRet result := fun _ a => Ok a.
#[global] Instance result_bind : MBind result := fun _ _ f m =>
  match m with
  | Ok a => f a
  | Raise e => Raise e
  end.
#[global] Instance result_fmap : FMap result := fun _ _ f m =>
  match m with
  | Ok a => Ok (f a)
  | Raise e => Raise e
  end.

(** A method of an object of class [S]: it reads and mutates the object and
    either returns or raises.  The object is returned in both cases, so that
    what a raising call has already mutated stays visible. *)
Definition State (S A : Type) : Type := S -> result A * S.

#[global] Instance State_ret {S} : MRet (State S) := fun _ a s => (Ok a, s).
#[global] Instance State_bind {S} : MBind (State S) := fun _ _ f m s =>
  match m s with
  | (Ok a, s') => f a s'
  | (Raise e, s') => (Raise e, s')
  end.

Definition gets {S A} (f : S -> A) : State S A := fun s => (Ok (f s), s).
Definition modify {S} (f : S -> S) : State S unit := fun s => (Ok tt, f s).
Definition lift {S A} (r : result A) : State S A := fun s => (r, s).

(** The object after a call, and what the call returned. *)
Definition exec {S A} (m : State S A) (s : S) : S := snd (m s).
Definition outcome {S A} (m : State S A) (s : S) : result A := fst (m s).

(** ** torch.LongTensor

    The operations of the tensor library that the ledgers use, with the
    behaviour of torch on one-dimensional [LongTensor]s: arithmetic wraps
    around modulo 2^64, a negative index counts from the end, an index out of
    range raises, and a Python int that does not fit 64 bits can not be
    stored or used as an operand. *)

Module Torch.

Definition int64_min : Z := -9223372036854775808.
Definition int64_max : Z := 9223372036854775807.
Definition modulus : Z := 18446744073709551616.

(** Two's complement wrap-around of 64-bit signed arithmetic. *)
Definition wrap64 (z : Z) : Z := (z - int64_min) mod modulus + int64_min.
#[global] Arguments wrap64 : simpl never.

(** Unpacking a Python int into a 64-bit integer (a tensor element, a
    scalar operand, an index or a size) raises when it does not fit. *)
Definition to_int64 (z : Z) : result Z :=
  if bool_decide (int64_min <= z <= int64_max) then Ok z
  else Raise OverflowError.

Abbreviation LongTensor := (list Z) (only parsing).

(** [sy.zeros(n).long()] and [sy.ones(n).long()] *)
Definition full (v : Z) (n : Z) : result LongTensor :=
  n' ← to_int64 n;
  if n' <? 0 then Raise SizeError else Ok (replicate (Z.to_nat n') v).
Definition zeros : Z -> result LongTensor := full 0.
Definition ones : Z -> result LongTensor := full 1.

(** [t[i] = v] for Python ints [i] and [v]: a negative index counts from
    the end; the index is checked before the value is unpacked. *)
Definition setitem (t : LongTensor) (i v : Z) : result LongTensor :=
  idx ← to_int64 i;
  let dimsize := Z.of_nat (length t) in
  let idx := if idx <? 0 then dimsize + idx else idx in
  if (idx <? 0) || (dimsize <=? idx) then Raise IndexError
  else
    v' ← to_int64 v;
    Ok (<[Z.to_nat idx := v']> t).

(** Element-wise binary operations, with broadcasting of a one-element
    operand. *)
Definition pointwise (f : Z -> Z -> Z) (a b : LongTensor) : result LongTensor :=
  if bool_decide (length a = length b) then Ok (zip_with f a b)
  else match a, b with
       | _, [y] => Ok ((fun x => f x y) <$> a)
       | [x], _ => Ok (f x <$> b)
       | _, _ => Raise ShapeError
       end.

Definition add : LongTensor -> LongTensor -> result LongTensor :=
  pointwise (fun x y => wrap64 (x + y)).
Definition sub : LongTensor -> LongTensor -> result LongTensor :=
  pointwise (fun x y => wrap64 (x - y)).
Definition mul : LongTensor -> LongTensor -> result LongTensor :=
  pointwise (fun x y => wrap64 (x * y)).
(** [a < b]: a tensor of 0s and 1s *)
Definition lt : LongTensor -> LongTensor -> result LongTensor :=
  pointwise (fun x y => if x <? y then 1 else 0).

(** [t * k] and [k - t] for a Python int [k] *)
Definition mul_scalar (t : LongTensor) (k : Z) : result LongTensor :=
  k' ← to_int64 k; Ok ((fun x => wrap64 (x * k')) <$> t).
Definition rsub_scalar (k : Z) (t : LongTensor) : result LongTensor :=
  k' ← to_int64 k; Ok ((fun x => wrap64 (k' - x)) <$> t).

(** [t < k] for a Python int [k]: a tensor of 0s and 1s *)
Definition lt_scalar (t : LongTensor) (k : Z) : result LongTensor :=
  k' ← to_int64 k; Ok ((fun x => if x <? k' then 1 else 0) <$> t).

(** [t.sum()] of a tensor of 0s and 1s: a Python int *)
Definition sum (t : LongTensor) : Z := foldr Z.add 0 t.

(** [t.sum(0)]: the one-element tensor of the (wrapped) sum *)
Definition sum0 (t : LongTensor) : LongTensor := [wrap64 (sum t)].

(** [t.expand(n)] *)
Definition expand (t : LongTensor) (n : Z) : result LongTensor :=
  n' ← to_int64 n;
  if n' <? 0 then Raise SizeError
  else match t with
       | [x] => Ok (replicate (Z.to_nat n') x)
       | _ => if bool_decide (Z.of_nat (length t) = n') then Ok t
              else Raise ShapeError
       end.

End Torch.

Import Torch.

(** The first three lines of [transact], the same in both classes:
    [record = sy.zeros(self.num_accounts).long()], [record[frm] = -amt],
    [record[to] = amt]. *)
Definition build_record (num_accounts amt frm to : Z) : result LongTensor :=
  record ← zeros num_accounts;
  record ← setitem record frm (- amt);
  setitem record to amt.

(** ** SimpleLedger (step 2: checking balance values) *)

Module SimpleLedger.

Record t : Type := {
  transactions : list LongTensor;
  num_accounts : Z;
  running_balance : LongTensor
}.

(** [self.transactions.append(record)] *)
Definition append (record : LongTensor) (self : t) : t :=
  {| transactions := transactions self ++ [record];
     num_accounts := num_accounts self;
     running_balance := running_balance self |}.

(** [self.running_balance = balance] *)
Definition set_running_balance (balance : LongTensor) (self : t) : t :=
  {| transactions := transactions self;
     num_accounts := num_accounts self;
     running_balance := balance |}.

(** [for t in ts: balance = balance + t] *)
Fixpoint accumulate (balance : LongTensor) (ts : list LongTensor)
  : result LongTensor :=
  match ts with
  | [] => Ok balance
  | t :: ts' => balance' ← add balance t; accumulate balance' ts'
  end.

(** The body of [compute_balances], on the list [self.transactions]. *)
Definition balances_of (transactions : list LongTensor) : result LongTensor :=
  match transactions with
  | [] => Raise IndexError
  | t0 :: rest => accumulate t0 rest
  end.

Definition compute_balances : State t LongTensor :=
  txs ← gets transactions; lift (balances_of txs).

(** After construction [running_balance] and [transactions[0]] are the same
    tensor object; no later statement writes into a tensor of the ledger
    ([+] and [*] build new tensors, and only the fresh [record] is indexed),
    so the sharing is not observable and both are plain values here. *)
Definition __init__ (num_accounts starting_balance : Z) : result t :=
  o ← ones num_accounts;
  initial_balances ← mul_scalar o starting_balance;
  let transactions := [initial_balances] in
  balance ← balances_of transactions;
  Ok {| transactions := transactions;
        num_accounts := num_accounts;
        running_balance := balance |}.

(** [1 - (candidate_balance < 0).sum()] *)
Definition neg_check (candidate_balance : LongTensor) : result Z :=
  negative ← lt_scalar candidate_balance 0;
  Ok (1 - sum negative).

Definition transact (amt frm to : Z) : State t unit :=
  n ← gets num_accounts;
  record ← lift (build_record n amt frm to);
  balance ← gets running_balance;
  candidate_balance ← lift (add balance record);
  neg_check ← lift (neg_check candidate_balance);
  record ← lift (mul_scalar record neg_check);
  _ ← modify (append record);
  balance ← gets running_balance;
  balance ← lift (add balance record);
  modify (set_running_balance balance).

(** A session: a sequence of calls [(amt, frm, to)] submitted one after
    the other; a call that raises leaves the ledger as it then is, and the
    next call runs on it (as in the cells of the notebook). *)
Definition run (calls : list (Z * Z * Z)) (self : t) : t :=
  foldl (fun l '(amt, frm, to) => exec (transact amt frm to) l) self calls.

End SimpleLedger.

(** ** Step 1: a simple ledger, without checks

    The first cells of the notebook keep the log in a global list and never
    validate a transfer; the first version of the class [SimpleLedger] wraps
    them.  The later class of the same name (step 2, above) redefines it. *)

Module Step1.

(** [for t in transactions[1:]: balance = balance + t] *)
Fixpoint accumulate (balance : LongTensor) (ts : list LongTensor)
  : result LongTensor :=
  match ts with
  | [] => Ok balance
  | t :: ts' => balance' ← add balance t; accumulate balance' ts'
  end.

(** [balance = transactions[0]] and the loop over [transactions[1:]]: the
    cell "Getting Your Balance", and the body of [compute_balances]. *)
Definition balances_of (transactions : list LongTensor) : result LongTensor :=
  match transactions with
  | [] => Raise IndexError
  | t0 :: rest => accumulate t0 rest
  end.

(** The globals of the script. *)
Definition num_accounts : Z := 10.

Definition initial_balances : result LongTensor :=
  o ← ones num_accounts; mul_scalar o 100.

(** The global list [transactions] once the first cell has run:
    [transactions = list()], [transactions.append(initial_balances)]. *)
Definition transactions : result (list LongTensor) :=
  initial_balances ← initial_balances; Ok ([] ++ [initial_balances]).

(** The function [transact] of the script, on the global list. *)
Definition transact (amt frm to : Z) : State (list LongTensor) unit :=
  record ← lift (build_record num_accounts amt frm to);
  modify (fun transactions => transactions ++ [record]).

(** The value of [balance] after the cell "Getting Your Balance". *)
Definition balance : State (list LongTensor) LongTensor :=
  transactions ← gets id; lift (balances_of transactions).

Definition run (calls : list (Z * Z * Z)) (transactions : list LongTensor)
  : list LongTensor :=
  foldl (fun l '(amt, frm, to) => exec (transact amt frm to) l)
    transactions calls.

(** The class [SimpleLedger] of step 1. *)
Module SimpleLedger.

Record t : Type := {
  transactions : list LongTensor;
  num_accounts : Z
}.

Definition append (record : LongTensor) (self : t) : t :=
  {| transactions := transactions self ++ [record];
     num_accounts := num_accounts self |}.

Definition __init__ (num_accounts starting_balance : Z) : result t :=
  o ← ones num_accounts;
  initial_balances ← mul_scalar o starting_balance;
  Ok {| transactions := [] ++ [initial_balances];
        num_accounts := num_accounts |}.

Definition transact (amt frm to : Z) : State t unit :=
  n ← gets num_accounts;
  record ← lift (build_record n amt frm to);
  modify (append record).

Definition compute_balances : State t LongTensor :=
  txs ← gets transactions; lift (balances_of txs).

Definition run (calls : list (Z * Z * Z)) (self : t) : t :=
  foldl (fun l '(amt, frm, to) => exec (transact amt frm to) l) self calls.

End SimpleLedger.

End Step1.

(** ** The SMPC engine behind [DecentralizedLedger]

    The operations on shared tensors ([share], [get], [+], [-], [*], [<],
    [sum(0)], [expand], [1 - x]) belong to the syft library and are not part
    of the notebook; the ledger is parametrised by them. *)
Class MPCEngine : Type := {
  Worker : Type;
  SecretValue : Type;
  share : LongTensor -> list Worker -> SecretValue;
  get : SecretValue -> LongTensor;
  secure_add : SecretValue -> SecretValue -> SecretValue;
  secure_sub : SecretValue -> SecretValue -> SecretValue;
  secure_mul : SecretValue -> SecretValue -> SecretValue;
  secure_lt : SecretValue -> SecretValue -> SecretValue;
  secure_sum0 : SecretValue -> SecretValue;
  secure_expand : SecretValue -> Z -> SecretValue;
  secure_rsub : Z -> SecretValue -> SecretValue
}.

(** Modelled from the spec: the correctness of the secret-sharing engine
    (section 6, "assumed to be a correct, already-implemented primitive
    library"), whose code is missing: revealing the result of a secure
    operation gives what the plaintext operation gives on the revealed
    operands, whenever the latter is defined. *)
Class MPCEngineCorrect (E : MPCEngine) : Prop := {
  get_share t ws : get (share t ws) = t;
  get_add a b c : add (get a) (get b) = Ok c -> get (secure_add a b) = c;
  get_sub a b c : sub (get a) (get b) = Ok c -> get (secure_sub a b) = c;
  get_mul a b c : mul (get a) (get b) = Ok c -> get (secure_mul a b) = c;
  get_lt a b c : lt (get a) (get b) = Ok c -> get (secure_lt a b) = c;
  get_sum0 a : get (secure_sum0 a) = sum0 (get a);
  get_expand a n c : expand (get a) n = Ok c -> get (secure_expand a n) = c;
  get_rsub k a c : rsub_scalar k (get a) = Ok c -> get (secure_rsub k a) = c
}.

(** ** DecentralizedLedger (step 3) *)

Module DecentralizedLedger.
Section WithEngine.
Context {E : MPCEngine}.

Record t : Type := {
  transactions : list SecretValue;
  owners : list Worker;
  num_accounts : Z;
  zeros : SecretValue;
  running_balance : SecretValue
}.

Definition append (record : SecretValue) (self : t) : t :=
  {| transactions := transactions self ++ [record];
     owners := owners self;
     num_accounts := num_accounts self;
     zeros := zeros self;
     running_balance := running_balance self |}.

Definition set_running_balance (balance : SecretValue) (self : t) : t :=
  {| transactions := transactions self;
     owners := owners self;
     num_accounts := num_accounts self;
     zeros := zeros self;
     running_balance := balance |}.

(** [for t in ts: balance = balance + t] *)
Fixpoint accumulate (balance : SecretValue) (ts : list SecretValue)
  : SecretValue :=
  match ts with
  | [] => balance
  | t :: ts' => accumulate (secure_add balance t) ts'
  end.

Definition balances_of (transactions : list SecretValue) : result SecretValue :=
  match transactions with
  | [] => Raise IndexError
  | t0 :: rest => Ok (accumulate t0 rest)
  end.

Definition compute_balances : State t SecretValue :=
  txs ← gets transactions; lift (balances_of txs).

Definition __init__ (owners : list Worker) (num_accounts starting_balance : Z)
  : result t :=
  o ← ones num_accounts;
  initial_balances ← mul_scalar o starting_balance;
  let initial_balances := share initial_balances owners in
  let transactions := [initial_balances] in
  let zeros := secure_sub initial_balances initial_balances in
  balance ← balances_of transactions;
  Ok {| transactions := transactions;
        owners := owners;
        num_accounts := num_accounts;
        zeros := zeros;
        running_balance := balance |}.

(** [1 - (candidate_balance < self.zeros).sum(0).expand(self.num_accounts)] *)
Definition neg_check (candidate_balance zeros : SecretValue) (n : Z)
  : SecretValue :=
  secure_rsub 1
    (secure_expand (secure_sum0 (secure_lt candidate_balance zeros)) n).

Definition transact (amt frm to : Z) : State t unit :=
  n ← gets num_accounts;
  record ← lift (build_record n amt frm to);
  owners ← gets owners;
  let record := share record owners in
  balance ← gets running_balance;
  let candidate_balance := secure_add balance record in
  zeros ← gets zeros;
  let neg_check := neg_check candidate_balance zeros n in
  let record := secure_mul record neg_check in
  _ ← modify (append record);
  balance ← gets running_balance;
  modify (set_running_balance (secure_add balance record)).

Definition run (calls : list (Z * Z * Z)) (self : t) : t :=
  foldl (fun l '(amt, frm, to) => exec (transact amt frm to) l) self calls.

(** [ledger.compute_balances().get()] *)
Definition revealed_balances (self : t) : result LongTensor :=
  get <$> outcome compute_balances self.

(** What the owners would see if every shared tensor of the ledger were
    revealed: a [SimpleLedger]. *)
Definition reveal (self : t) : SimpleLedger.t :=
  {| SimpleLedger.transactions := get <$> transactions self;
     SimpleLedger.num_accounts := num_accounts self;
     SimpleLedger.running_balance := get (running_balance self) |}.

End WithEngine.
End DecentralizedLedger.

(** The ideal engine: a trusted party that holds the plaintext. *)
Definition plain (r : result LongTensor) : LongTensor :=
  match r with Ok c => c | Raise _ => [] end.

#[export] Instance IdealEngine : MPCEngine := {|
  Worker := string;
  SecretValue := LongTensor;
  share t _ := t;
  get t := t;
  secure_add a b := plain (add a b);
  secure_sub a b := plain (sub a b);
  secure_mul a b := plain (mul a b);
  secure_lt a b := plain (lt a b);
  secure_sum0 := sum0;
  secure_expand a n := plain (expand a n);
  secure_rsub k a := plain (rsub_scalar k a)
|}.

(** ** Vocabulary of the statements *)

(** The slot that a Python index denotes in a tensor of [n] elements. *)
Definition account (n i : Z) : Z := if i <? 0 then n + i else i.

(** An index that [setitem] accepts on a tensor of [n] elements. *)
Definition valid_index (n i : Z) : Prop := - n <= i < n.

(** An amount [amt] such that both [amt] and [-amt] fit a tensor element. *)
Definition storable (amt : Z) : Prop := - int64_max <= amt <= int64_max.

(** The record of a transfer: the debit is written first, the credit second. *)
Definition transfer_record (n amt frm to : Z) : LongTensor :=
  <[Z.to_nat (account n to) := amt]>
    (<[Z.to_nat (account n frm) := - amt]> (replicate (Z.to_nat n) 0)).

(** How many entries of a tensor are negative. *)
Definition negatives (t : LongTensor) : Z :=
  sum ((fun x => if x <? 0 then 1 else 0) <$> t).

(** Element-wise wrapped sum and scaling of tensors of the same size. *)
Definition plus (a b : LongTensor) : LongTensor :=
  zip_with (fun x y => wrap64 (x + y)) a b.
Definition scale (m : Z) (r : LongTensor) : LongTensor :=
  (fun x => wrap64 (x * m)) <$> r.

(** The mask that [transact] computes for a record, and the ledger once the
    masked record is appended and added to the running balance. *)
Definition mask (balance record : LongTensor) : Z :=
  1 - negatives (plus balance record).
Definition commit (record : LongTensor) (l : SimpleLedger.t) : SimpleLedger.t :=
  SimpleLedger.set_running_balance
    (plus (SimpleLedger.running_balance l) record)
    (SimpleLedger.append record l).

(** The invariant of a [SimpleLedger]: every tensor has [num_accounts]
    64-bit entries and the running balance is the sum of the log. *)
Definition int64 (z : Z) : Prop := int64_min <= z <= int64_max.
Definition tensor_of (n : Z) (t : LongTensor) : Prop :=
  length t = Z.to_nat n /\ Forall int64 t.

Record wf (l : SimpleLedger.t) : Prop := {
  wf_num_accounts : 0 <= SimpleLedger.num_accounts l <= int64_max;
  wf_transactions :
    Forall (tensor_of (SimpleLedger.num_accounts l)) (SimpleLedger.transactions l);
  wf_running_balance :
    tensor_of (SimpleLedger.num_accounts l) (SimpleLedger.running_balance l);
  wf_coherent :
    SimpleLedger.balances_of (SimpleLedger.transactions l)
    = Ok (SimpleLedger.running_balance l)
}.

(** The total of all balances, as [balance.sum()] computes it. *)
Definition total (t : LongTensor) : Z := wrap64 (sum t).

(** What a session of transfers between distinct accounts preserves: the
    records after the seed sum to zero and the balances sum to [c]. *)
Definition conserved (c : Z) (l : SimpleLedger.t) : Prop :=
  Forall (fun record => total record = 0) (tail (SimpleLedger.transactions l))
  /\ total (SimpleLedger.running_balance l) = c.

(** The sum of the absolute amounts of a session: no balance can exceed the
    starting balance by more. *)
Definition volume (calls : list (Z * Z * Z)) : Z :=
  foldr (fun '(amt, _, _) v => Z.abs amt + v) 0 calls.

(** 1 for a negative number and 0 otherwise: an entry of [t < 0]. *)
Definition negative (x : Z) : Z := if x <? 0 then 1 else 0.

(** The balances once [amt] is moved from slot [i] to slot [j]: the debit is
    applied first, and the credit is computed from the balance before the
    call. *)
Definition moved (balance : LongTensor) (amt : Z) (i j : nat) : LongTensor :=
  <[j := wrap64 (balance !!! j + amt)]>
    (<[i := wrap64 (balance !!! i + - amt)]> balance).

(** The invariant of the ledger of step 1: a log that starts with the seed
    and holds tensors of [num_accounts] 64-bit entries. *)
Definition wf1 (l : Step1.SimpleLedger.t) : Prop :=
  0 <= Step1.SimpleLedger.num_accounts l <= int64_max /\
  Step1.SimpleLedger.transactions l <> [] /\
  Forall (tensor_of (Step1.SimpleLedger.num_accounts l))
    (Step1.SimpleLedger.transactions l).

(** Whether a call returns on a ledger of [n] accounts, and how many calls
    of a session do. *)
Definition returns (n : Z) (call : Z * Z * Z) : bool :=
  let '(amt, frm, to) := call in
  (- n <=? frm) && (frm <? n) && (- n <=? to) && (to <? n)
  && (- int64_max <=? amt) && (amt <=? int64_max).
Definition returned (n : Z) (calls : list (Z * Z * Z)) : nat :=
  length (List.filter (returns n) calls).

(** The balances of the ledger of step 1 after one more call. *)
Definition applied (n : Z) (balance : LongTensor) (call : Z * Z * Z)
  : LongTensor :=
  let '(amt, frm, to) := call in
  match build_record n amt frm to with
  | Ok record => plus balance record
  | Raise _ => balance
  end.

(** The same vocabulary for the shared ledger. *)
Section SharedVocabulary.
Context {E : MPCEngine}.

(** The ledger once a shared record is appended and added to the running
    balance. *)
Definition dcommit (record : SecretValue) (d : DecentralizedLedger.t)
  : DecentralizedLedger.t :=
  DecentralizedLedger.set_running_balance
    (secure_add (DecentralizedLedger.running_balance d) record)
    (DecentralizedLedger.append record d).

(** The masked record that a call appends. *)
Definition dmasked (d : DecentralizedLedger.t) (r : LongTensor)
  : SecretValue :=
  let record := share r (DecentralizedLedger.owners d) in
  secure_mul record
    (DecentralizedLedger.neg_check
       (secure_add (DecentralizedLedger.running_balance d) record)
       (DecentralizedLedger.zeros d) (DecentralizedLedger.num_accounts d)).

(** The cache is the fold of the log. *)
Definition dcoherent (d : DecentralizedLedger.t) : Prop :=
  DecentralizedLedger.balances_of (DecentralizedLedger.transactions d)
  = Ok (DecentralizedLedger.running_balance d).

(** The ledgers on which the simulation holds. *)
Definition dwf (d : DecentralizedLedger.t) : Prop :=
  wf (DecentralizedLedger.reveal d) /\
  get (DecentralizedLedger.zeros d)
  = replicate (Z.to_nat (DecentralizedLedger.num_accounts d)) 0.

End SharedVocabulary.

(** [SimpleLedger()] and [DecentralizedLedger(jp_norgan, ubz)], with the
    default arguments of the notebook. *)
Definition default_ledger : SimpleLedger.t :=
  {| SimpleLedger.transactions := [replicate 10 100];
     SimpleLedger.num_accounts := 10;
     SimpleLedger.running_balance := replicate 10 100 |}.

Definition default_shared_ledger : DecentralizedLedger.t (E := IdealEngine) :=
  {| DecentralizedLedger.transactions := [replicate 10 100];
     DecentralizedLedger.owners := ["jp_norgan"; "ubz"]%string;
     DecentralizedLedger.num_accounts := 10;
     DecentralizedLedger.zeros := replicate 10 0;
     DecentralizedLedger.running_balance := replicate 10 100 |}.

Example simple_ledger_demo :
  (l ← SimpleLedger.__init__ 10 100;
   outcome SimpleLedger.compute_balances
     (exec (SimpleLedger.transact 100 0 1) l))
  = Ok [0; 200; 100; 100; 100; 100; 100; 100; 100; 100].
Proof. reflexivity. Qed.

Example decentralized_ledger_demo :
  (l ← DecentralizedLedger.__init__ ["jp_norgan"; "ubz"]%string 10 100;
   DecentralizedLedger.revealed_balances
     (exec (DecentralizedLedger.transact 100 0 1)
        (exec (DecentralizedLedger.transact 100 0 1) l)))
  = Ok [0; 200; 100; 100; 100; 100; 100; 100; 100; 100].
Proof. reflexivity. Qed.

(** ** 64-bit wrap-around *)

Section Wrap64.

Lemma wrap64_bounds z : int64_min <= wrap64 z <= int64_max.
Proof.
  unfold wrap64, int64_min, int64_max, modulus.
  pose proof (Z.mod_pos_bound (z - -9223372036854775808) 18446744073709551616).
  lia.
Qed.

Lemma wrap64_small z : int64_min <= z <= int64_max -> wrap64 z = z.
Proof.
  unfold wrap64, int64_min, int64_max, modulus. intros Hz.
  rewrite Z.mod_small; lia.
Qed.

Lemma wrap64_eq a b : a mod modulus = b mod modulus -> wrap64 a = wrap64 b.
Proof.
  intros Hab. unfold wrap64. f_equal.
  rewrite (Zminus_mod a), (Zminus_mod b). by rewrite Hab.
Qed.

Lemma wrap64_mod z : wrap64 z mod modulus = z mod modulus.
Proof.
  unfold wrap64.
  rewrite Zplus_mod, Zmod_mod, <- Zplus_mod. f_equal. lia.
Qed.

Lemma wrap64_idemp z : wrap64 (wrap64 z) = wrap64 z.
Proof. apply wrap64_small, wrap64_bounds. Qed.

Lemma wrap64_add_l a b : wrap64 (wrap64 a + b) = wrap64 (a + b).
Proof.
  apply wrap64_eq. rewrite Zplus_mod, wrap64_mod, <- Zplus_mod. done.
Qed.

Lemma wrap64_add_r a b : wrap64 (a + wrap64 b) = wrap64 (a + b).
Proof. rewrite Z.add_comm, wrap64_add_l. f_equal. lia. Qed.

Lemma wrap64_mul_r a b : wrap64 (a * wrap64 b) = wrap64 (a * b).
Proof.
  apply wrap64_eq. rewrite Zmult_mod, wrap64_mod, <- Zmult_mod. done.
Qed.

Lemma to_int64_Ok z : int64_min <= z <= int64_max -> to_int64 z = Ok z.
Proof. intros Hz. unfold to_int64. by rewrite bool_decide_eq_true_2. Qed.


Lemma to_int64_inv z z' :
  to_int64 z = Ok z' -> z' = z /\ int64_min <= z <= int64_max.
Proof.
  unfold to_int64. case_bool_decide; intros Heq; by simplify_eq.
Qed.

End Wrap64.

(** ** Facts about the tensor operations *)

Section TorchFacts.

Lemma pointwise_same f (a b : LongTensor) :
  length a = length b -> pointwise f a b = Ok (zip_with f a b).
Proof. intros Hlen. unfold pointwise. by rewrite bool_decide_eq_true_2. Qed.

Lemma add_same (a b : LongTensor) :
  length a = length b -> add a b = Ok (plus a b).
Proof. apply pointwise_same. Qed.

Lemma length_plus (a b : LongTensor) :
  length a = length b -> length (plus a b) = length a.
Proof. intros Hlen. unfold plus. by rewrite length_zip_with_l_eq. Qed.

Lemma length_scale m (r : LongTensor) : length (scale m r) = length r.
Proof. unfold scale. by rewrite length_fmap. Qed.

Lemma full_Ok v n :
  0 <= n <= int64_max -> full v n = Ok (replicate (Z.to_nat n) v).
Proof.
  intros Hn. unfold full. rewrite to_int64_Ok by (unfold int64_min; lia).
  simpl. destruct (Z.ltb_spec n 0); [lia | done].
Qed.

Lemma full_inv v n t :
  full v n = Ok t -> 0 <= n <= int64_max /\ t = replicate (Z.to_nat n) v.
Proof.
  unfold full. destruct (to_int64 n) as [n'|] eqn:Hn; simpl; [|done].
  apply to_int64_inv in Hn as [-> Hn].
  destruct (Z.ltb_spec n 0); intros Heq; simplify_eq. split; [lia | done].
Qed.

Lemma setitem_Ok (t : LongTensor) i v :
  Z.of_nat (length t) <= int64_max ->
  valid_index (Z.of_nat (length t)) i ->
  int64_min <= v <= int64_max ->
  setitem t i v = Ok (<[Z.to_nat (account (Z.of_nat (length t)) i) := v]> t).
Proof.
  intros Hlen [Hlo Hhi] Hv. unfold setitem, account.
  rewrite (to_int64_Ok i) by (unfold int64_min, int64_max in *; lia).
  rewrite (to_int64_Ok v) by done. simpl.
  destruct (Z.ltb_spec i 0).
  - destruct (Z.ltb_spec (Z.of_nat (length t) + i) 0); [lia|].
    by destruct (Z.leb_spec (Z.of_nat (length t)) (Z.of_nat (length t) + i));
      [lia|].
  - destruct (Z.ltb_spec i 0); [lia|].
    by destruct (Z.leb_spec (Z.of_nat (length t)) i); [lia|].
Qed.

Lemma setitem_inv (t t' : LongTensor) i v :
  setitem t i v = Ok t' ->
  valid_index (Z.of_nat (length t)) i /\ int64_min <= v <= int64_max /\
  t' = <[Z.to_nat (account (Z.of_nat (length t)) i) := v]> t.
Proof.
  unfold setitem, account, valid_index.
  destruct (to_int64 i) as [i'|] eqn:Hi; simpl; [|done].
  apply to_int64_inv in Hi as [-> Hi].
  destruct (Z.ltb_spec i 0).
  - destruct (Z.ltb_spec (Z.of_nat (length t) + i) 0); simpl; [done|].
    destruct (Z.leb_spec (Z.of_nat (length t)) (Z.of_nat (length t) + i));
      simpl; [done|].
    destruct (to_int64 v) as [v'|] eqn:Hv; simpl; [|done].
    apply to_int64_inv in Hv as [-> Hv]. intros Heq; simplify_eq.
    repeat split; lia || done.
  - destruct (Z.ltb_spec i 0); [lia|]. simpl.
    destruct (Z.leb_spec (Z.of_nat (length t)) i); simpl; [done|].
    destruct (to_int64 v) as [v'|] eqn:Hv; simpl; [|done].
    apply to_int64_inv in Hv as [-> Hv]. intros Heq; simplify_eq.
    repeat split; lia || done.
Qed.


Lemma negatives_cons x (t : LongTensor) :
  negatives (x :: t) = (if x <? 0 then 1 else 0) + negatives t.
Proof. done. Qed.

Lemma negatives_bounds (t : LongTensor) :
  0 <= negatives t <= Z.of_nat (length t).
Proof.
  induction t as [|x t IH]; [done|].
  rewrite negatives_cons, length_cons. destruct (x <? 0); lia.
Qed.

Lemma negatives_zero (t : LongTensor) :
  negatives t = 0 <-> Forall (fun x => 0 <= x) t.
Proof.
  induction t as [|x t IH].
  - split; [constructor | done].
  - pose proof (negatives_bounds t) as Hb.
    rewrite negatives_cons, Forall_cons, <- IH.
    destruct (Z.ltb_spec x 0); lia.
Qed.

Lemma lt_scalar_zero (t : LongTensor) :
  lt_scalar t 0 = Ok ((fun x => if x <? 0 then 1 else 0) <$> t).
Proof. done. Qed.

End TorchFacts.

(** ** The record of a transfer *)

Section BuildRecord.

Lemma bind_Ok {A B} (a : A) (f : A -> result B) : (x ← Ok a; f x) = f a.
Proof. done. Qed.

Lemma length_transfer_record n amt frm to :
  length (transfer_record n amt frm to) = Z.to_nat n.
Proof.
  unfold transfer_record. by rewrite !length_insert, length_replicate.
Qed.

Lemma build_record_Ok n amt frm to :
  0 <= n <= int64_max -> valid_index n frm -> valid_index n to ->
  storable amt ->
  build_record n amt frm to = Ok (transfer_record n amt frm to).
Proof.
  intros Hn Hfrm Hto Hamt. unfold build_record, zeros, storable in *.
  rewrite full_Ok, bind_Ok by done.
  assert (Hlen : Z.of_nat (length (replicate (Z.to_nat n) 0)) = n)
    by (rewrite length_replicate; lia).
  assert (Hneg : int64_min <= - amt <= int64_max)
    by (unfold int64_min, int64_max in *; lia).
  assert (Hpos : int64_min <= amt <= int64_max)
    by (unfold int64_min, int64_max in *; lia).
  rewrite setitem_Ok, bind_Ok by (rewrite ?Hlen; done || lia).
  rewrite setitem_Ok by (rewrite ?length_insert, ?Hlen; done || lia).
  by rewrite length_insert, !Hlen.
Qed.

Lemma build_record_inv n amt frm to r :
  build_record n amt frm to = Ok r ->
  (0 <= n <= int64_max /\ valid_index n frm /\ valid_index n to /\
   storable amt) /\ r = transfer_record n amt frm to.
Proof.
  unfold build_record, zeros.
  destruct (full 0 n) as [z|] eqn:Hz; [|done]. rewrite bind_Ok.
  apply full_inv in Hz as [Hn ->].
  destruct (setitem _ frm _) as [r1|] eqn:H1; [|done]. rewrite bind_Ok.
  apply setitem_inv in H1 as (Hfrm & Hneg & ->).
  intros (Hto & Hamt & ->)%setitem_inv.
  rewrite length_insert in Hto. rewrite !length_insert, !length_replicate.
  rewrite length_replicate in Hfrm, Hto. rewrite !Z2Nat.id in * by lia.
  unfold storable, valid_index, transfer_record, int64_min, int64_max in *.
  repeat split; lia || done.
Qed.

Lemma build_record_Raise n amt frm to :
  ~ (0 <= n <= int64_max /\ valid_index n frm /\ valid_index n to /\
     storable amt) ->
  exists e, build_record n amt frm to = Raise e.
Proof.
  intros Hbad. destruct (build_record n amt frm to) as [r|e] eqn:Hr; [|eauto].
  by apply build_record_inv in Hr as [? _].
Qed.


Lemma transfer_record_int64 n amt frm to :
  storable amt -> Forall int64 (transfer_record n amt frm to).
Proof.
  intros Hamt. unfold transfer_record, storable, int64 in *.
  apply Forall_insert; [apply Forall_insert|];
    [apply Forall_replicate| |]; unfold int64_min, int64_max in *; lia.
Qed.

End BuildRecord.

(** ** One call of [SimpleLedger.transact] *)

Section StateFacts.
Context {S A B : Type}.

Lemma bind_gets (f : S -> A) (k : A -> State S B) s :
  (x ← gets f; k x) s = k (f s) s.
Proof. done. Qed.

Lemma bind_lift_Ok (a : A) (k : A -> State S B) s :
  (x ← lift (Ok a); k x) s = k a s.
Proof. done. Qed.

Lemma bind_lift_Raise e (k : A -> State S B) s :
  (x ← lift (Raise e); k x) s = (Raise e, s).
Proof. done. Qed.

Lemma bind_modify (f : S -> S) (k : unit -> State S B) s :
  (x ← modify f; k x) s = k tt (f s).
Proof. done. Qed.

End StateFacts.

Section SimpleLedgerFacts.

Lemma transact_raise l amt frm to e :
  build_record (SimpleLedger.num_accounts l) amt frm to = Raise e ->
  SimpleLedger.transact amt frm to l = (Raise e, l).
Proof.
  intros Hr. unfold SimpleLedger.transact.
  by rewrite bind_gets, Hr, bind_lift_Raise.
Qed.

Lemma mask_bounds (balance record : LongTensor) :
  length balance = length record ->
  1 - Z.of_nat (length record) <= mask balance record <= 1.
Proof.
  intros Hlen. unfold mask.
  pose proof (negatives_bounds (plus balance record)) as Hb.
  rewrite length_plus in Hb by done. lia.
Qed.

Lemma transact_commit l amt frm to r :
  build_record (SimpleLedger.num_accounts l) amt frm to = Ok r ->
  length (SimpleLedger.running_balance l)
    = Z.to_nat (SimpleLedger.num_accounts l) ->
  SimpleLedger.transact amt frm to l
  = (Ok tt, commit (scale (mask (SimpleLedger.running_balance l) r) r) l).
Proof.
  intros Hr Hlen. unfold SimpleLedger.transact.
  rewrite bind_gets, Hr, bind_lift_Ok, bind_gets.
  apply build_record_inv in Hr as [(Hn & _) ->].
  pose proof (length_transfer_record (SimpleLedger.num_accounts l) amt frm to)
    as Hlenr.
  set (r := transfer_record _ _ _ _) in *.
  assert (Hsame : length (SimpleLedger.running_balance l) = length r)
    by congruence.
  rewrite add_same, bind_lift_Ok by done.
  unfold SimpleLedger.neg_check. rewrite lt_scalar_zero, bind_Ok, bind_lift_Ok.
  fold (negatives (plus (SimpleLedger.running_balance l) r)).
  fold (mask (SimpleLedger.running_balance l) r).
  pose proof (mask_bounds _ _ Hsame) as Hm.
  unfold mul_scalar. rewrite to_int64_Ok, bind_Ok, bind_lift_Ok;
    [|unfold int64_min, int64_max in *; lia].
  fold (scale (mask (SimpleLedger.running_balance l) r) r).
  rewrite bind_modify, bind_gets. simpl SimpleLedger.running_balance.
  rewrite add_same, bind_lift_Ok by (by rewrite length_scale).
  done.
Qed.

(** A call either raises while it builds the record, and then leaves the
    ledger as it was, or it commits the masked record. *)
Lemma transact_cases l amt frm to :
  length (SimpleLedger.running_balance l)
    = Z.to_nat (SimpleLedger.num_accounts l) ->
  (exists e,
      build_record (SimpleLedger.num_accounts l) amt frm to = Raise e /\
      SimpleLedger.transact amt frm to l = (Raise e, l)) \/
  (build_record (SimpleLedger.num_accounts l) amt frm to
     = Ok (transfer_record (SimpleLedger.num_accounts l) amt frm to) /\
   storable amt /\
   SimpleLedger.transact amt frm to l
   = (Ok tt,
      commit (scale (mask (SimpleLedger.running_balance l)
                       (transfer_record (SimpleLedger.num_accounts l) amt frm to))
                (transfer_record (SimpleLedger.num_accounts l) amt frm to)) l)).
Proof.
  intros Hlen.
  destruct (build_record (SimpleLedger.num_accounts l) amt frm to)
    as [r|e] eqn:Hr.
  - right. pose proof (transact_commit _ _ _ _ _ Hr Hlen) as Ht.
    apply build_record_inv in Hr as [(_ & _ & _ & Hamt) ->]. done.
  - left. exists e. split; [done|]. by apply transact_raise.
Qed.

Lemma accumulate_snoc balance ts r :
  SimpleLedger.accumulate balance (ts ++ [r])
  = (b ← SimpleLedger.accumulate balance ts; add b r).
Proof.
  revert balance. induction ts as [|t ts IH]; intros balance; simpl.
  - by destruct (add balance r).
  - destruct (add balance t) as [b|]; simpl; [apply IH | done].
Qed.

Lemma plus_int64 (a b : LongTensor) : Forall int64 (plus a b).
Proof.
  unfold plus. revert b. induction a as [|x a IH]; intros [|y b]; simpl;
    constructor; [apply wrap64_bounds | apply IH].
Qed.

Lemma plus_tensor_of n a b :
  length a = Z.to_nat n -> length b = Z.to_nat n -> tensor_of n (plus a b).
Proof.
  intros Ha Hb. split; [rewrite length_plus; congruence | apply plus_int64].
Qed.

Lemma scale_tensor_of n m r :
  length r = Z.to_nat n -> tensor_of n (scale m r).
Proof.
  intros Hr. split; [by rewrite length_scale|].
  unfold scale. apply Forall_fmap, Forall_forall. intros x _.
  apply wrap64_bounds.
Qed.

Lemma commit_wf l r :
  wf l -> tensor_of (SimpleLedger.num_accounts l) r -> wf (commit r l).
Proof.
  intros [Hn Htx [Hlen Hrun] Hco] [Hr Hr64]. split; simpl.
  - done.
  - apply Forall_app. split; [done|]. by repeat constructor.
  - by apply plus_tensor_of.
  - destruct (SimpleLedger.transactions l) as [|t0 rest]; [done|].
    simpl in *. rewrite accumulate_snoc, Hco. simpl.
    apply add_same. congruence.
Qed.

Lemma transact_wf l amt frm to :
  wf l -> wf (exec (SimpleLedger.transact amt frm to) l).
Proof.
  intros Hwf. unfold exec.
  destruct (transact_cases l amt frm to) as [(e & _ & ->)|(_ & _ & ->)];
    [apply Hwf | done |].
  simpl. apply commit_wf; [done|].
  apply scale_tensor_of, length_transfer_record.
Qed.

Lemma init_inv n s l :
  SimpleLedger.__init__ n s = Ok l ->
  (0 <= n <= int64_max /\ int64 s) /\
  l = {| SimpleLedger.transactions := [replicate (Z.to_nat n) (wrap64 s)];
         SimpleLedger.num_accounts := n;
         SimpleLedger.running_balance := replicate (Z.to_nat n) (wrap64 s) |}.
Proof.
  unfold SimpleLedger.__init__, ones.
  destruct (full 1 n) as [o|] eqn:Ho; [|done]. rewrite bind_Ok.
  apply full_inv in Ho as [Hn ->]. unfold mul_scalar.
  destruct (to_int64 s) as [s'|] eqn:Hs; [|done]. rewrite !bind_Ok.
  apply to_int64_inv in Hs as [-> Hs]. simpl. intros Heq; simplify_eq.
  rewrite fmap_replicate, Z.mul_1_l. done.
Qed.

Lemma init_wf n s l : SimpleLedger.__init__ n s = Ok l -> wf l.
Proof.
  intros [[Hn Hs] ->]%init_inv.
  assert (tensor_of n (replicate (Z.to_nat n) (wrap64 s))).
  { split; [apply length_replicate|]. apply Forall_replicate, wrap64_bounds. }
  split; simpl; auto.
Qed.

Lemma run_wf calls l : wf l -> wf (SimpleLedger.run calls l).
Proof.
  revert l. induction calls as [|[[amt frm] to] calls IH]; intros l Hwf;
    [done|].
  simpl. by apply IH, transact_wf.
Qed.

Lemma run_snoc calls amt frm to l :
  SimpleLedger.run (calls ++ [(amt, frm, to)]) l
  = exec (SimpleLedger.transact amt frm to) (SimpleLedger.run calls l).
Proof. unfold SimpleLedger.run. by rewrite foldl_snoc. Qed.

End SimpleLedgerFacts.

(** ** One call of [DecentralizedLedger.transact] *)

Section DecentralizedLedgerFacts.
Context {E : MPCEngine}.

Lemma dtransact_raise d amt frm to e :
  build_record (DecentralizedLedger.num_accounts d) amt frm to = Raise e ->
  DecentralizedLedger.transact amt frm to d = (Raise e, d).
Proof.
  intros Hr. unfold DecentralizedLedger.transact.
  by rewrite bind_gets, Hr, bind_lift_Raise.
Qed.

Lemma dtransact_commit d amt frm to r :
  build_record (DecentralizedLedger.num_accounts d) amt frm to = Ok r ->
  DecentralizedLedger.transact amt frm to d = (Ok tt, dcommit (dmasked d r) d).
Proof.
  intros Hr. unfold DecentralizedLedger.transact.
  by rewrite bind_gets, Hr, bind_lift_Ok.
Qed.

Lemma daccumulate_snoc balance ts r :
  DecentralizedLedger.accumulate balance (ts ++ [r])
  = secure_add (DecentralizedLedger.accumulate balance ts) r.
Proof.
  revert balance. induction ts as [|t ts IH]; intros balance; simpl; auto.
Qed.

Lemma dinit_coherent ws n s d :
  DecentralizedLedger.__init__ ws n s = Ok d -> dcoherent d.
Proof.
  unfold DecentralizedLedger.__init__.
  destruct (ones n) as [o|]; [|done]. rewrite bind_Ok.
  destruct (mul_scalar o s) as [i|]; [|done]. rewrite bind_Ok. simpl.
  intros Heq; by simplify_eq.
Qed.

Lemma dtransact_coherent d amt frm to :
  dcoherent d -> dcoherent (exec (DecentralizedLedger.transact amt frm to) d).
Proof.
  intros Hco. unfold exec.
  destruct (build_record (DecentralizedLedger.num_accounts d) amt frm to)
    as [r|e] eqn:Hr.
  - rewrite (dtransact_commit _ _ _ _ _ Hr). unfold dcoherent in *. simpl.
    destruct (DecentralizedLedger.transactions d) as [|t0 rest]; [done|].
    unfold DecentralizedLedger.balances_of in *. cbn [app].
    rewrite daccumulate_snoc. congruence.
  - by rewrite (dtransact_raise _ _ _ _ _ Hr).
Qed.

Lemma drun_coherent calls d :
  dcoherent d -> dcoherent (DecentralizedLedger.run calls d).
Proof.
  revert d. induction calls as [|[[amt frm] to] calls IH]; intros d Hco;
    [done|].
  simpl. by apply IH, dtransact_coherent.
Qed.

(** *** Simulation of the plaintext ledger *)

Context {EC : MPCEngineCorrect E}.

Lemma neg_check_reveal c z n :
  0 <= n <= int64_max ->
  length (get c) = Z.to_nat n ->
  get z = replicate (Z.to_nat n) 0 ->
  get (DecentralizedLedger.neg_check c z n)
  = replicate (Z.to_nat n) (1 - negatives (get c)).
Proof.
  intros Hn Hlen Hz. unfold DecentralizedLedger.neg_check.
  pose proof (negatives_bounds (get c)) as Hb.
  apply get_rsub. erewrite get_expand; last first.
  { rewrite get_sum0. unfold sum0, expand.
    rewrite to_int64_Ok, bind_Ok by (unfold int64_min, int64_max in *; lia).
    destruct (Z.ltb_spec n 0); [lia | done]. }
  unfold rsub_scalar. rewrite to_int64_Ok, bind_Ok by done.
  rewrite fmap_replicate. do 2 f_equal.
  erewrite get_lt; last first.
  { rewrite Hz. apply pointwise_same. by rewrite length_replicate. }
  rewrite zip_with_replicate_r_eq by done.
  change (sum _) with (negatives (get c)).
  rewrite Hlen in Hb.
  rewrite (wrap64_small (negatives _))
    by (unfold int64_min, int64_max in *; lia).
  apply wrap64_small. unfold int64_min, int64_max in *; lia.
Qed.

Lemma dmasked_reveal d r :
  0 <= DecentralizedLedger.num_accounts d <= int64_max ->
  length (get (DecentralizedLedger.running_balance d))
    = Z.to_nat (DecentralizedLedger.num_accounts d) ->
  get (DecentralizedLedger.zeros d)
    = replicate (Z.to_nat (DecentralizedLedger.num_accounts d)) 0 ->
  length r = Z.to_nat (DecentralizedLedger.num_accounts d) ->
  get (dmasked d r)
  = scale (mask (get (DecentralizedLedger.running_balance d)) r) r.
Proof.
  intros Hn Hrun Hz Hr. unfold dmasked.
  assert (Hcand : get (secure_add (DecentralizedLedger.running_balance d)
                         (share r (DecentralizedLedger.owners d)))
                  = plus (get (DecentralizedLedger.running_balance d)) r).
  { apply get_add. rewrite get_share. apply add_same. congruence. }
  apply get_mul. rewrite get_share, neg_check_reveal; try done.
  - rewrite Hcand. unfold mul.
    rewrite pointwise_same by (by rewrite length_replicate).
    by rewrite zip_with_replicate_r_eq.
  - rewrite Hcand, length_plus; congruence.
Qed.

Lemma dtransact_simulation d amt frm to :
  dwf d ->
  outcome (DecentralizedLedger.transact amt frm to) d
  = outcome (SimpleLedger.transact amt frm to) (DecentralizedLedger.reveal d)
  /\ DecentralizedLedger.reveal (exec (DecentralizedLedger.transact amt frm to) d)
     = exec (SimpleLedger.transact amt frm to) (DecentralizedLedger.reveal d)
  /\ dwf (exec (DecentralizedLedger.transact amt frm to) d).
Proof.
  intros Hd. pose proof Hd as [Hwf Hz]. unfold exec, outcome.
  pose proof (transact_wf _ amt frm to Hwf) as Hwf'. unfold exec in Hwf'.
  destruct Hwf as [Hn _ [Hlen _] _]. simpl in Hn, Hlen.
  destruct (build_record (DecentralizedLedger.num_accounts d) amt frm to)
    as [r|e] eqn:Hr.
  - rewrite (dtransact_commit _ _ _ _ _ Hr).
    rewrite (transact_commit (DecentralizedLedger.reveal d) _ _ _ r) in *
      by done.
    assert (Hlenr : length r = Z.to_nat (DecentralizedLedger.num_accounts d)).
    { apply build_record_inv in Hr as [_ ->]. apply length_transfer_record. }
    assert (Hrev : DecentralizedLedger.reveal (dcommit (dmasked d r) d)
                   = commit (scale (mask (get (DecentralizedLedger.running_balance d)) r) r)
                       (DecentralizedLedger.reveal d)).
    { unfold DecentralizedLedger.reveal, dcommit, commit,
        SimpleLedger.set_running_balance, SimpleLedger.append. simpl.
      rewrite fmap_app. simpl. rewrite dmasked_reveal by done.
      do 2 f_equal. apply get_add. rewrite dmasked_reveal by done.
      apply add_same. rewrite length_scale. congruence. }
    simpl. split; [done|]. split; [done|].
    split; [by rewrite Hrev | done].
  - rewrite (dtransact_raise _ _ _ _ _ Hr).
    rewrite (transact_raise (DecentralizedLedger.reveal d) _ _ _ e) by done.
    done.
Qed.

Lemma drun_simulation calls d :
  dwf d ->
  DecentralizedLedger.reveal (DecentralizedLedger.run calls d)
  = SimpleLedger.run calls (DecentralizedLedger.reveal d)
  /\ dwf (DecentralizedLedger.run calls d).
Proof.
  revert d. induction calls as [|[[amt frm] to] calls IH]; intros d Hwf;
    [done|].
  destruct (dtransact_simulation d amt frm to Hwf) as (_ & Hrev & Hwf').
  simpl. rewrite <- Hrev. by apply IH.
Qed.

Lemma dinit_simulation ws n s d :
  DecentralizedLedger.__init__ ws n s = Ok d ->
  SimpleLedger.__init__ n s = Ok (DecentralizedLedger.reveal d) /\ dwf d.
Proof.
  unfold DecentralizedLedger.__init__, SimpleLedger.__init__, ones.
  destruct (full 1 n) as [o|] eqn:Ho; [|done]. rewrite !bind_Ok.
  apply full_inv in Ho as [Hn ->]. unfold mul_scalar.
  destruct (to_int64 s) as [s'|] eqn:Hs; [|done]. rewrite !bind_Ok.
  apply to_int64_inv in Hs as [-> Hs]. simpl. intros Heq; simplify_eq.
  unfold dwf, DecentralizedLedger.reveal. simpl.
  rewrite !get_share, !fmap_replicate, !Z.mul_1_l.
  assert (tensor_of n (replicate (Z.to_nat n) (wrap64 s))).
  { split; [apply length_replicate|]. apply Forall_replicate, wrap64_bounds. }
  split; [done|]. split; [split; simpl; auto|].
  apply get_sub. rewrite get_share. unfold sub.
  rewrite pointwise_same, zip_with_replicate by done.
  by rewrite Z.sub_diag.
Qed.

End DecentralizedLedgerFacts.

(** ** The ideal engine is correct, and the default ledgers are built by the
    constructors *)

Lemma IdealEngine_correct : MPCEngineCorrect IdealEngine.
Proof.
  split; simpl; try done; intros; match goal with H : _ = Ok _ |- _ =>
    by rewrite H end.
Qed.

Lemma default_ledger_init : SimpleLedger.__init__ 10 100 = Ok default_ledger.
Proof. reflexivity. Qed.

Lemma default_shared_ledger_init :
  DecentralizedLedger.__init__ ["jp_norgan"; "ubz"]%string 10 100
  = Ok default_shared_ledger.
Proof. reflexivity. Qed.

(** ** Sessions *)

Section Sessions.
Context {E : MPCEngine}.

Lemma session_wf n s l0 calls :
  SimpleLedger.__init__ n s = Ok l0 -> wf (SimpleLedger.run calls l0).
Proof. intros Hinit. by eapply run_wf, init_wf. Qed.

Lemma session_num_accounts calls l :
  SimpleLedger.num_accounts (SimpleLedger.run calls l)
  = SimpleLedger.num_accounts l.
Proof.
  revert l. induction calls as [|[[amt frm] to] calls IH]; intros l; [done|].
  simpl. rewrite IH. unfold exec, SimpleLedger.transact.
  rewrite bind_gets.
  destruct (build_record _ _ _ _) as [r|e]; [|done].
  rewrite bind_lift_Ok, bind_gets.
  destruct (add _ _) as [c|]; [|done]. rewrite bind_lift_Ok.
  destruct (SimpleLedger.neg_check c) as [m|]; [|done]. rewrite bind_lift_Ok.
  destruct (mul_scalar r m) as [r'|]; [|done].
  rewrite bind_lift_Ok, bind_modify, bind_gets.
  by destruct (add _ r').
Qed.

Lemma session_coherent ws n s d0 calls :
  DecentralizedLedger.__init__ ws n s = Ok d0 ->
  dcoherent (DecentralizedLedger.run calls d0).
Proof. intros Hinit. by eapply drun_coherent, dinit_coherent. Qed.

Lemma dsession_num_accounts calls (d : DecentralizedLedger.t) :
  DecentralizedLedger.num_accounts (DecentralizedLedger.run calls d)
  = DecentralizedLedger.num_accounts d.
Proof.
  revert d. induction calls as [|[[amt frm] to] calls IH]; intros d; [done|].
  simpl. rewrite IH. unfold exec, DecentralizedLedger.transact.
  rewrite bind_gets. by destruct (build_record _ _ _ _) as [r|e].
Qed.

Lemma dinit_num_accounts ws n s d0 :
  DecentralizedLedger.__init__ ws n s = Ok d0 ->
  DecentralizedLedger.num_accounts d0 = n /\ 0 <= n <= int64_max.
Proof.
  unfold DecentralizedLedger.__init__, ones.
  destruct (full 1 n) as [o|] eqn:Ho; [|done]. rewrite bind_Ok.
  apply full_inv in Ho as [Hn _].
  destruct (mul_scalar _ s) as [i|]; [|done]. rewrite bind_Ok. simpl.
  intros Heq; by simplify_eq.
Qed.

Context {EC : MPCEngineCorrect E}.

(** A session on the shared ledger reveals to the same session on the
    plaintext ledger. *)
Lemma session_simulation ws n s d0 calls :
  DecentralizedLedger.__init__ ws n s = Ok d0 ->
  exists l0,
    SimpleLedger.__init__ n s = Ok l0 /\
    DecentralizedLedger.reveal (DecentralizedLedger.run calls d0)
    = SimpleLedger.run calls l0 /\
    dwf (DecentralizedLedger.run calls d0).
Proof.
  intros [Hinit Hwf]%dinit_simulation.
  exists (DecentralizedLedger.reveal d0). split; [done|].
  by apply drun_simulation.
Qed.

Lemma revealed_balances_coherent d :
  dcoherent d ->
  DecentralizedLedger.revealed_balances d
  = Ok (SimpleLedger.running_balance (DecentralizedLedger.reveal d)).
Proof.
  unfold dcoherent, DecentralizedLedger.revealed_balances, outcome,
    DecentralizedLedger.compute_balances.
  rewrite bind_gets. simpl. by intros ->.
Qed.

End Sessions.

(** ** Cache coherence *)

Section CacheCoherence.

Lemma accumulate_foldl n t0 rest :
  Forall (tensor_of n) (t0 :: rest) ->
  SimpleLedger.accumulate t0 rest = Ok (foldl plus t0 rest).
Proof.
  revert t0. induction rest as [|t rest IH]; intros t0 Hall; [done|].
  apply Forall_cons in Hall as [[H0 _] Hall].
  pose proof Hall as [[Ht _] _]%Forall_cons.
  simpl. rewrite add_same, bind_Ok by congruence.
  apply IH. constructor; [|by apply Forall_cons in Hall as [_ ?]].
  by apply plus_tensor_of.
Qed.

Lemma session_log n s l0 calls :
  SimpleLedger.__init__ n s = Ok l0 ->
  exists records,
    SimpleLedger.transactions (SimpleLedger.run calls l0)
    = replicate (Z.to_nat n) s :: records.
Proof.
  intros Hinit. pose proof (init_wf _ _ _ Hinit) as Hwf.
  apply init_inv in Hinit as [[_ Hs] ->].
  rewrite wrap64_small in * by done.
  set (l0 := SimpleLedger.Build_t _ _ _) in *.
  assert (Hlog : exists records, SimpleLedger.transactions l0
                   = replicate (Z.to_nat n) s :: records) by (by exists []).
  clearbody l0. revert l0 Hwf Hlog.
  induction calls as [|[[amt frm] to] calls IH]; intros l Hwf Hlog; [done|].
  simpl. apply IH; [by apply transact_wf|].
  destruct Hlog as [records Hlog]. unfold exec.
  destruct (transact_cases l amt frm to) as [(e & _ & ->)|(_ & _ & ->)];
    [apply Hwf | by exists records |].
  simpl. rewrite Hlog. by eexists.
Qed.

End CacheCoherence.

(** C1. After any session on a ledger built by its constructor, plaintext or
    shared, [compute_balances()] returns the cached [running_balance]; on the
    plaintext ledger this is the element-wise (wrapped) sum of the records of
    the log, folded from the seeded vector of starting balances. *)
Theorem cache_coherence {E : MPCEngine} n s l0 calls ws n' s' d0 calls' :
  SimpleLedger.__init__ n s = Ok l0 ->
  DecentralizedLedger.__init__ ws n' s' = Ok d0 ->
  let l := SimpleLedger.run calls l0 in
  let d := DecentralizedLedger.run calls' d0 in
  outcome SimpleLedger.compute_balances l = Ok (SimpleLedger.running_balance l)
  /\ (exists records,
        SimpleLedger.transactions l = replicate (Z.to_nat n) s :: records /\
        SimpleLedger.running_balance l
        = foldl plus (replicate (Z.to_nat n) s) records)
  /\ outcome DecentralizedLedger.compute_balances d
     = Ok (DecentralizedLedger.running_balance d).
Proof.
  intros Hl Hd l d.
  pose proof (session_wf _ _ _ calls Hl) as Hwf. fold l in Hwf.
  assert (Hco : outcome SimpleLedger.compute_balances l
                = Ok (SimpleLedger.running_balance l)).
  { unfold outcome, SimpleLedger.compute_balances. rewrite bind_gets.
    apply Hwf. }
  split; [done|]. split.
  - destruct (session_log _ _ _ calls Hl) as [records Hlog]. fold l in Hlog.
    exists records. split; [done|].
    pose proof (wf_coherent _ Hwf) as Hsum. pose proof (wf_transactions _ Hwf).
    rewrite Hlog in *. simpl in Hsum.
    erewrite accumulate_foldl in Hsum by done. congruence.
  - unfold outcome, DecentralizedLedger.compute_balances. rewrite bind_gets.
    by apply (session_coherent ws n' s').
Qed.

Lemma cache_coherence_witness :
  let calls := [(5, 0, 1); (100, 0, 1); (95, 0, 1)] in
  let l := SimpleLedger.run calls default_ledger in
  let d := DecentralizedLedger.run calls default_shared_ledger in
  outcome SimpleLedger.compute_balances l = Ok (SimpleLedger.running_balance l)
  /\ (exists records,
        SimpleLedger.transactions l = replicate (Z.to_nat 10) 100 :: records /\
        SimpleLedger.running_balance l
        = foldl plus (replicate (Z.to_nat 10) 100) records)
  /\ outcome DecentralizedLedger.compute_balances d
     = Ok (DecentralizedLedger.running_balance d).
Proof.
  exact (cache_coherence (E := IdealEngine) 10 100 default_ledger
           [(5, 0, 1); (100, 0, 1); (95, 0, 1)]
           ["jp_norgan"; "ubz"]%string 10 100 default_shared_ledger
           [(5, 0, 1); (100, 0, 1); (95, 0, 1)]
           eq_refl eq_refl).
Defined.

(** C9. The scenario of the notebook on ten accounts of 100 each:
    [transact(5,0,1)] gives [95, 105, 100, ...]; then [transact(100,0,1)] is
    rejected and leaves the balances as they are; then [transact(95,0,1)]
    gives [0, 200, 100, ...]. *)
Theorem scenario_ten_accounts :
  SimpleLedger.__init__ 10 100 = Ok default_ledger /\
  let l1 := exec (SimpleLedger.transact 5 0 1) default_ledger in
  let l2 := exec (SimpleLedger.transact 100 0 1) l1 in
  let l3 := exec (SimpleLedger.transact 95 0 1) l2 in
  outcome SimpleLedger.compute_balances l1
  = Ok [95; 105; 100; 100; 100; 100; 100; 100; 100; 100] /\
  outcome SimpleLedger.compute_balances l2
  = Ok [95; 105; 100; 100; 100; 100; 100; 100; 100; 100] /\
  outcome SimpleLedger.compute_balances l3
  = Ok [0; 200; 100; 100; 100; 100; 100; 100; 100; 100].
Proof. repeat split; vm_compute; reflexivity. Qed.

(** ** The mask *)

Section Mask.

Lemma neg_check_negatives c : SimpleLedger.neg_check c = Ok (1 - negatives c).
Proof. done. Qed.

Lemma neg_check_one c :
  SimpleLedger.neg_check c = Ok 1 <-> Forall (fun x => 0 <= x) c.
Proof.
  rewrite neg_check_negatives, <- negatives_zero.
  split; [intros Heq; simplify_eq; lia | by intros ->].
Qed.

End Mask.

(** C2. The mask is one minus the number of negative entries of the candidate
    balance.  It is 1 exactly when no entry is negative, but it is not
    confined to 0 and 1: on the default ledger, [transact(2^63 - 1, 0, 1)]
    drives both account 0 (debit) and account 1 (credit, by wrap-around)
    negative, and the mask is -1, on the plaintext and on the shared ledger. *)
Theorem neg_check_minus_one :
  (forall c, SimpleLedger.neg_check c = Ok (1 - negatives c)) /\
  (forall c, SimpleLedger.neg_check c = Ok 1 <-> Forall (fun x => 0 <= x) c) /\
  SimpleLedger.__init__ 10 100 = Ok default_ledger /\
  DecentralizedLedger.__init__ ["jp_norgan"; "ubz"]%string 10 100
  = Ok default_shared_ledger /\
  exists record candidate,
    build_record 10 int64_max 0 1 = Ok record /\
    add (SimpleLedger.running_balance default_ledger) record = Ok candidate /\
    negatives candidate = 2 /\
    SimpleLedger.neg_check candidate = Ok (-1) /\
    get (DecentralizedLedger.neg_check
           (secure_add (DecentralizedLedger.running_balance default_shared_ledger)
              (share record (DecentralizedLedger.owners default_shared_ledger)))
           (DecentralizedLedger.zeros default_shared_ledger) 10)
    = replicate 10 (-1).
Proof.
  split; [apply neg_check_negatives|]. split; [apply neg_check_one|].
  do 2 (split; [reflexivity|]).
  exists [- int64_max; int64_max; 0; 0; 0; 0; 0; 0; 0; 0],
    [-9223372036854775707; -9223372036854775709;
     100; 100; 100; 100; 100; 100; 100; 100].
  repeat split; vm_compute; reflexivity.
Qed.

(** C6. From the default ledger (ten accounts of 100 each), the single call
    [transact(2^63 - 1, 0, 1)] leaves accounts 0 and 1 with negative
    balances, on the plaintext and on the shared ledger. *)
Theorem negative_balance_reached :
  SimpleLedger.__init__ 10 100 = Ok default_ledger /\
  DecentralizedLedger.__init__ ["jp_norgan"; "ubz"]%string 10 100
  = Ok default_shared_ledger /\
  outcome SimpleLedger.compute_balances
    (SimpleLedger.run [(int64_max, 0, 1)] default_ledger)
  = Ok [-9223372036854775709; -9223372036854775707;
        100; 100; 100; 100; 100; 100; 100; 100] /\
  DecentralizedLedger.revealed_balances
    (DecentralizedLedger.run [(int64_max, 0, 1)] default_shared_ledger)
  = Ok [-9223372036854775709; -9223372036854775707;
        100; 100; 100; 100; 100; 100; 100; 100].
Proof. repeat split; vm_compute; reflexivity. Qed.

(** C7. On the default ledger [transact(2^63 - 1, 0, 1)] is over the limit
    (account 0 holds 100, and the candidate balance has negative entries),
    yet the balances after the first submission differ from those before,
    and those after the second submission differ from those after the
    first. *)
Theorem over_limit_twice_changes_balances :
  let l1 := exec (SimpleLedger.transact int64_max 0 1) default_ledger in
  let l2 := exec (SimpleLedger.transact int64_max 0 1) l1 in
  SimpleLedger.__init__ 10 100 = Ok default_ledger /\
  (exists record,
      build_record 10 int64_max 0 1 = Ok record /\
      0 < negatives (plus (SimpleLedger.running_balance default_ledger) record))
  /\ outcome SimpleLedger.compute_balances default_ledger
     = Ok [100; 100; 100; 100; 100; 100; 100; 100; 100; 100]
  /\ outcome SimpleLedger.compute_balances l1
     = Ok [-9223372036854775709; -9223372036854775707;
           100; 100; 100; 100; 100; 100; 100; 100]
  /\ outcome SimpleLedger.compute_balances l2
     = Ok [100; 100; 100; 100; 100; 100; 100; 100; 100; 100].
Proof.
  split; [reflexivity|].
  split; [exists [- int64_max; int64_max; 0; 0; 0; 0; 0; 0; 0; 0]|];
    repeat split; vm_compute; reflexivity.
Qed.

(** C8. On the default ledger the amount 2^63 - 1 overflows the balance of
    the credited account; [transact(2^63 - 1, 0, 1)] returns normally and
    appends the intended record negated, not the all-zero record, and the
    running balance changes.  (An amount of 2^63 or more does not fit a tensor
    element: the call raises and nothing is appended.) *)
Theorem overflowing_amount_committed :
  let l1 := exec (SimpleLedger.transact int64_max 0 1) default_ledger in
  SimpleLedger.__init__ 10 100 = Ok default_ledger /\
  (outcome (SimpleLedger.transact (int64_max + 1) 0 1) default_ledger
   = Raise OverflowError /\
   exec (SimpleLedger.transact (int64_max + 1) 0 1) default_ledger
   = default_ledger) /\
  wrap64 (100 + int64_max) < 0 /\
  outcome (SimpleLedger.transact int64_max 0 1) default_ledger = Ok tt /\
  SimpleLedger.transactions l1
  = [replicate 10 100;
     [int64_max; - int64_max; 0; 0; 0; 0; 0; 0; 0; 0]] /\
  SimpleLedger.running_balance l1
  = [-9223372036854775709; -9223372036854775707;
     100; 100; 100; 100; 100; 100; 100; 100].
Proof. repeat split; vm_compute; reflexivity. Qed.

(** ** Transfers on a ledger without negative balances *)

Section NonNegativeLedger.

Lemma plus_zeros (a : LongTensor) n :
  Forall int64 a -> length a = n -> plus a (replicate n 0) = a.
Proof.
  intros Ha <-. unfold plus. rewrite zip_with_replicate_r_eq by done.
  induction Ha as [|x a Hx _ IH]; [done|]. csimpl.
  rewrite IH. unfold flip. by rewrite Z.add_0_r, wrap64_small.
Qed.

Lemma plus_insert_zeros (a : LongTensor) n i v :
  Forall int64 a -> length a = n -> (i < n)%nat ->
  plus a (<[i := v]> (replicate n 0))
  = <[i := wrap64 (a !!! i + v)]> a.
Proof.
  intros Ha Hlen Hi.
  assert (Hai : a !! i = Some (a !!! i))
    by (apply list_lookup_lookup_total_lt; lia).
  rewrite <- (list_insert_id a i (a !!! i)) at 1 by done.
  unfold plus. rewrite <- insert_zip_with. fold (plus a (replicate n 0)).
  by rewrite plus_zeros.
Qed.

Lemma negatives_insert (a : LongTensor) i v :
  Forall (fun b => 0 <= b) a -> (i < length a)%nat ->
  negatives (<[i := v]> a) = if v <? 0 then 1 else 0.
Proof.
  intros Ha. revert i. induction Ha as [|x a Hx Ha IH]; intros i Hi;
    [simpl in Hi; lia|].
  destruct i as [|i]; simpl.
  - rewrite negatives_cons. apply negatives_zero in Ha. rewrite Ha. lia.
  - rewrite negatives_cons, IH by (simpl in Hi; lia).
    destruct (Z.ltb_spec x 0); lia.
Qed.

Lemma scale_one (r : LongTensor) : Forall int64 r -> scale 1 r = r.
Proof.
  intros Hr. unfold scale. induction Hr as [|x r Hx _ IH]; [done|]. csimpl.
  by rewrite IH, Z.mul_1_r, wrap64_small.
Qed.

Lemma scale_zero (r : LongTensor) : scale 0 r = replicate (length r) 0.
Proof.
  unfold scale. induction r as [|x r IH]; [done|]. csimpl.
  by rewrite IH, Z.mul_0_r.
Qed.

(** What a call does to the balances when it writes a single non-zero
    entry [v] in slot [i] of the record. *)
Lemma commit_single l i v :
  wf l -> Forall (fun b => 0 <= b) (SimpleLedger.running_balance l) ->
  (i < Z.to_nat (SimpleLedger.num_accounts l))%nat -> int64 v ->
  let balance := SimpleLedger.running_balance l in
  let record := <[i := v]> (replicate (Z.to_nat (SimpleLedger.num_accounts l)) 0) in
  let credited := wrap64 (balance !!! i + v) in
  SimpleLedger.running_balance (commit (scale (mask balance record) record) l)
  = if credited <? 0 then balance else <[i := credited]> balance.
Proof.
  intros [_ _ [Hlen H64] _] Hpos Hi Hv balance record credited. simpl.
  fold balance in Hlen, H64, Hpos |- *.
  assert (Hcand : plus balance record = <[i := credited]> balance)
    by (by apply plus_insert_zeros).
  unfold mask. rewrite Hcand, negatives_insert by (done || lia).
  destruct (credited <? 0).
  - replace (1 - 1) with 0 by lia. rewrite scale_zero.
    unfold record. rewrite length_insert, length_replicate.
    by apply plus_zeros.
  - replace (1 - 0) with 1 by lia. rewrite scale_one; [done|].
    unfold record. apply Forall_insert; [|done].
    apply Forall_replicate. unfold int64, int64_min, int64_max. lia.
Qed.

(** With no negative entry in the candidate balance the record is committed
    as it is; with exactly one it is committed as the all-zero record and the
    balances stay as they are. *)
Lemma transact_accepts l amt frm to :
  wf l ->
  let record := transfer_record (SimpleLedger.num_accounts l) amt frm to in
  build_record (SimpleLedger.num_accounts l) amt frm to = Ok record ->
  negatives (plus (SimpleLedger.running_balance l) record) = 0 ->
  exec (SimpleLedger.transact amt frm to) l = commit record l.
Proof.
  intros Hwf record Hrec Hneg. unfold exec.
  rewrite (transact_commit _ _ _ _ _ Hrec) by apply Hwf. simpl.
  unfold mask. rewrite Hneg, Z.sub_0_r, scale_one; [done|].
  apply build_record_inv in Hrec as [(_ & _ & _ & Hamt) _].
  by apply transfer_record_int64.
Qed.

Lemma transact_rejects l amt frm to :
  wf l ->
  let record := transfer_record (SimpleLedger.num_accounts l) amt frm to in
  build_record (SimpleLedger.num_accounts l) amt frm to = Ok record ->
  negatives (plus (SimpleLedger.running_balance l) record) = 1 ->
  exec (SimpleLedger.transact amt frm to) l
  = SimpleLedger.append (replicate (Z.to_nat (SimpleLedger.num_accounts l)) 0) l.
Proof.
  intros Hwf record Hrec Hneg. unfold exec.
  rewrite (transact_commit _ _ _ _ _ Hrec) by apply Hwf. simpl.
  unfold mask. rewrite Hneg. replace (1 - 1) with 0 by lia.
  rewrite scale_zero. fold record. unfold record at 1.
  rewrite length_transfer_record.
  unfold commit. destruct Hwf as [_ _ [Hlen H64] _].
  rewrite (plus_zeros _ _ H64 Hlen). by destruct l.
Qed.

End NonNegativeLedger.

(** ** The shared ledger as seen by its owners *)

Section Observation.
Context {E : MPCEngine} {EC : MPCEngineCorrect E}.

Lemma compute_balances_wf l :
  wf l ->
  outcome SimpleLedger.compute_balances l = Ok (SimpleLedger.running_balance l).
Proof.
  intros Hwf. unfold outcome, SimpleLedger.compute_balances.
  rewrite bind_gets. apply Hwf.
Qed.

Lemma dtransact_observation d amt frm to :
  dwf d -> dcoherent d ->
  outcome (DecentralizedLedger.transact amt frm to) d
  = outcome (SimpleLedger.transact amt frm to) (DecentralizedLedger.reveal d)
  /\ DecentralizedLedger.revealed_balances
       (exec (DecentralizedLedger.transact amt frm to) d)
     = outcome SimpleLedger.compute_balances
         (exec (SimpleLedger.transact amt frm to) (DecentralizedLedger.reveal d)).
Proof.
  intros Hwf Hco.
  destruct (dtransact_simulation d amt frm to Hwf) as (Hout & Hrev & Hwf').
  split; [done|].
  rewrite revealed_balances_coherent by (by apply dtransact_coherent).
  rewrite Hrev, compute_balances_wf; [done|].
  apply transact_wf, Hwf.
Qed.

End Observation.

(** ** Self-transfers *)

(** C3, counterexample.  On the default ledger [transact(5, 0, 0)] builds the
    record [5, 0, ..., 0] (the credit overwrites the debit), validates it and
    raises the balance of account 0 to 105. *)
Lemma self_transfer_counterexample :
  let l1 := exec (SimpleLedger.transact 5 0 0) default_ledger in
  SimpleLedger.__init__ 10 100 = Ok default_ledger /\
  build_record 10 5 0 0 = Ok [5; 0; 0; 0; 0; 0; 0; 0; 0; 0] /\
  build_record 10 5 0 0 <> Ok (replicate 10 0) /\
  outcome SimpleLedger.compute_balances l1
  = Ok [105; 100; 100; 100; 100; 100; 100; 100; 100; 100] /\
  outcome SimpleLedger.compute_balances l1
  <> outcome SimpleLedger.compute_balances default_ledger.
Proof. repeat split; vm_compute; congruence. Qed.

(** C3, amended.  On a ledger without negative balances, for every storable
    amount and every account index [i] in [0, N), [transact(amount, i, i)]
    builds the record that holds [amount] in slot [i] and zero elsewhere (the
    credit is written over the debit) and returns normally; it credits
    account [i] with [amount] when the credited balance (with wrap-around)
    is not negative, and leaves the balances unchanged otherwise.  The same
    holds for the revealed balances of the shared ledger. *)
Theorem self_transfer_credits {E : MPCEngine} {EC : MPCEngineCorrect E}
    n s l0 ws d0 calls amt i :
  SimpleLedger.__init__ n s = Ok l0 ->
  DecentralizedLedger.__init__ ws n s = Ok d0 ->
  let l := SimpleLedger.run calls l0 in
  let d := DecentralizedLedger.run calls d0 in
  let balance := SimpleLedger.running_balance l in
  let credited := wrap64 (balance !!! Z.to_nat i + amt) in
  let after :=
    if credited <? 0 then balance else <[Z.to_nat i := credited]> balance in
  0 <= i < n -> storable amt -> Forall (fun b => 0 <= b) balance ->
  build_record n amt i i = Ok (<[Z.to_nat i := amt]> (replicate (Z.to_nat n) 0))
  /\ outcome (SimpleLedger.transact amt i i) l = Ok tt
  /\ outcome SimpleLedger.compute_balances (exec (SimpleLedger.transact amt i i) l)
     = Ok after
  /\ outcome (DecentralizedLedger.transact amt i i) d = Ok tt
  /\ DecentralizedLedger.revealed_balances
       (exec (DecentralizedLedger.transact amt i i) d)
     = Ok after.
Proof.
  intros Hl Hd l d balance credited after Hi Hamt Hpos.
  pose proof (session_wf _ _ _ calls Hl) as Hwf. fold l in Hwf.
  assert (Hn : SimpleLedger.num_accounts l = n).
  { unfold l. rewrite session_num_accounts.
    by apply init_inv in Hl as [_ ->]. }
  assert (Hrec : build_record n amt i i
                 = Ok (<[Z.to_nat i := amt]> (replicate (Z.to_nat n) 0))).
  { pose proof (wf_num_accounts _ Hwf) as Hb. rewrite Hn in Hb.
    rewrite build_record_Ok by (unfold valid_index; done || lia).
    unfold transfer_record, account.
    destruct (Z.ltb_spec i 0); [lia|]. by rewrite list_insert_insert_eq. }
  assert (Hcall : SimpleLedger.transact amt i i l
                  = (Ok tt, commit (scale (mask balance
                       (<[Z.to_nat i := amt]> (replicate (Z.to_nat n) 0)))
                       (<[Z.to_nat i := amt]> (replicate (Z.to_nat n) 0))) l)).
  { apply transact_commit; [by rewrite Hn|]. apply Hwf. }
  assert (Hafter : outcome SimpleLedger.compute_balances
                     (exec (SimpleLedger.transact amt i i) l) = Ok after).
  { rewrite compute_balances_wf by (by apply transact_wf).
    unfold exec. rewrite Hcall. simpl snd. f_equal.
    pose proof (commit_single l (Z.to_nat i) amt Hwf Hpos) as Hc.
    rewrite Hn in Hc. apply Hc; [lia|].
    unfold storable, int64, int64_min, int64_max in *. lia. }
  assert (Hout : outcome (SimpleLedger.transact amt i i) l = Ok tt)
    by (unfold outcome; by rewrite Hcall).
  destruct (session_simulation ws n s d0 calls Hd) as (l0' & Hl' & Hrev & Hdwf).
  assert (l0' = l0) as -> by congruence. fold l d in Hrev, Hdwf.
  destruct (dtransact_observation d amt i i Hdwf) as [Hdout Hdbal];
    [by apply (session_coherent ws n s)|].
  rewrite Hrev in Hdout, Hdbal.
  repeat split; congruence.
Qed.

Lemma self_transfer_credits_witness :
  build_record 10 5 0 0 = Ok (<[Z.to_nat 0 := 5]> (replicate (Z.to_nat 10) 0))
  /\ outcome (SimpleLedger.transact 5 0 0) default_ledger = Ok tt
  /\ outcome SimpleLedger.compute_balances
       (exec (SimpleLedger.transact 5 0 0) default_ledger)
     = Ok [105; 100; 100; 100; 100; 100; 100; 100; 100; 100]
  /\ outcome (DecentralizedLedger.transact 5 0 0) default_shared_ledger = Ok tt
  /\ DecentralizedLedger.revealed_balances
       (exec (DecentralizedLedger.transact 5 0 0) default_shared_ledger)
     = Ok [105; 100; 100; 100; 100; 100; 100; 100; 100; 100].
Proof.
  apply (self_transfer_credits (E := IdealEngine) (EC := IdealEngine_correct)
           10 100 default_ledger ["jp_norgan"; "ubz"]%string
           default_shared_ledger [] 5 0 eq_refl eq_refl).
  - lia.
  - unfold storable, int64_max. lia.
  - repeat constructor; lia.
Defined.

(** ** When [transact] raises *)

Section Raising.
Context {E : MPCEngine}.

(** A call returns or raises as the construction of its record does, and a
    raising call leaves the ledger as it was. *)
Lemma transact_outcome l amt frm to :
  wf l ->
  outcome (SimpleLedger.transact amt frm to) l
  = (fun _ => tt) <$> build_record (SimpleLedger.num_accounts l) amt frm to
  /\ forall e, outcome (SimpleLedger.transact amt frm to) l = Raise e ->
               exec (SimpleLedger.transact amt frm to) l = l.
Proof.
  intros Hwf. unfold outcome, exec.
  destruct (transact_cases l amt frm to) as [(e & -> & ->)|(-> & _ & ->)];
    [apply Hwf | done | done].
Qed.


Lemma build_record_returns n amt frm to :
  0 <= n <= int64_max ->
  (fun _ => tt) <$> build_record n amt frm to = Ok tt
  <-> valid_index n frm /\ valid_index n to /\ storable amt.
Proof.
  intros Hn. split.
  - destruct (build_record n amt frm to) as [r|e] eqn:Hr; [|done].
    by apply build_record_inv in Hr as [(_ & ? & ? & ?) _].
  - intros (Hfrm & Hto & Hamt). by rewrite build_record_Ok.
Qed.


End Raising.




(** ** Negative indices *)

Section NegativeIndices.
Context {E : MPCEngine}.

Lemma setitem_valid (t : LongTensor) i v :
  Z.of_nat (length t) <= int64_max ->
  valid_index (Z.of_nat (length t)) i ->
  setitem t i v
  = (v' ← to_int64 v;
     Ok (<[Z.to_nat (account (Z.of_nat (length t)) i) := v']> t)).
Proof.
  intros Hlen Hi. destruct (to_int64 v) as [v'|ev] eqn:Hv.
  - apply to_int64_inv in Hv as [-> Hv]. by apply setitem_Ok.
  - destruct (setitem t i v) as [t'|e] eqn:Ht.
    + apply setitem_inv in Ht as (_ & Hv' & _).
      by rewrite to_int64_Ok in Hv.
    + revert Ht. unfold setitem, valid_index in *.
      rewrite (to_int64_Ok i) by (unfold int64_min, int64_max in *; lia).
      rewrite bind_Ok, Hv.
      destruct (Z.ltb_spec i 0).
      * destruct (Z.ltb_spec (Z.of_nat (length t) + i) 0); [lia|].
        by destruct (Z.leb_spec (Z.of_nat (length t))
                       (Z.of_nat (length t) + i)); [lia|].
      * destruct (Z.ltb_spec i 0); [lia|].
        by destruct (Z.leb_spec (Z.of_nat (length t)) i); [lia|].
Qed.







Lemma account_range n i : valid_index n i -> 0 <= account n i < n.
Proof.
  unfold valid_index, account. intros Hi. destruct (Z.ltb_spec i 0); lia.
Qed.


End NegativeIndices.




(** ** Conservation of the total *)

Section Conservation.

Lemma sum_cons x (t : LongTensor) : sum (x :: t) = x + sum t.
Proof. done. Qed.

Lemma sum_replicate n v : sum (replicate n v) = Z.of_nat n * v.
Proof.
  induction n as [|n IH]; [done|].
  rewrite replicate_S, sum_cons, IH. lia.
Qed.

Lemma sum_insert (t : LongTensor) i v :
  (i < length t)%nat -> sum (<[i := v]> t) = sum t - t !!! i + v.
Proof.
  revert i. induction t as [|x t IH]; intros i Hi; [simpl in Hi; lia|].
  destruct i as [|i].
  - change (<[0%nat := v]> (x :: t)) with (v :: t).
    change ((x :: t) !!! 0%nat) with x. rewrite !sum_cons. lia.
  - change (<[S i := v]> (x :: t)) with (x :: <[i := v]> t).
    change ((x :: t) !!! S i) with (t !!! i).
    rewrite !sum_cons, IH by (simpl in Hi; lia). lia.
Qed.

Lemma sum_transfer_record n amt frm to :
  valid_index n frm -> valid_index n to ->
  account n frm <> account n to ->
  sum (transfer_record n amt frm to) = 0.
Proof.
  intros Hfrm Hto Hne.
  pose proof (account_range _ _ Hfrm). pose proof (account_range _ _ Hto).
  unfold transfer_record.
  rewrite sum_insert by (rewrite length_insert, length_replicate; lia).
  rewrite list_lookup_total_insert_ne by lia.
  rewrite sum_insert by (rewrite length_replicate; lia).
  rewrite sum_replicate, !lookup_total_replicate_2 by lia. lia.
Qed.

Lemma total_scale m (r : LongTensor) : total (scale m r) = wrap64 (m * sum r).
Proof.
  unfold total, scale. induction r as [|x r IH]; [by rewrite Z.mul_0_r|].
  rewrite fmap_cons, !sum_cons, wrap64_add_l.
  rewrite <- wrap64_add_r, IH, wrap64_add_r. f_equal. lia.
Qed.

Lemma sum_plus_mod (a b : LongTensor) :
  length a = length b ->
  sum (plus a b) mod modulus = (sum a + sum b) mod modulus.
Proof.
  unfold plus. revert b.
  induction a as [|x a IH]; intros [|y b] Hlen;
    [reflexivity|discriminate Hlen|discriminate Hlen|].
  injection Hlen as Hlen.
  change (zip_with ?f (x :: a) (y :: b)) with (f x y :: zip_with f a b).
  rewrite !sum_cons, Zplus_mod, wrap64_mod, IH, <- Zplus_mod by done.
  f_equal. lia.
Qed.

Lemma total_plus (a b : LongTensor) :
  length a = length b -> total (plus a b) = wrap64 (total a + total b).
Proof.
  intros Hlen. unfold total. rewrite wrap64_add_l, wrap64_add_r.
  by apply wrap64_eq, sum_plus_mod.
Qed.

Lemma transact_conserved c l amt frm to :
  wf l -> conserved c l ->
  account (SimpleLedger.num_accounts l) frm
    <> account (SimpleLedger.num_accounts l) to ->
  conserved c (exec (SimpleLedger.transact amt frm to) l).
Proof.
  intros Hwf [Hlog Hrun] Hne. unfold exec.
  pose proof Hwf as [_ _ [Hlen _] Hco].
  destruct (transact_cases l amt frm to Hlen)
    as [(e & _ & ->)|(Hrec & _ & ->)]; [done|].
  apply build_record_inv in Hrec as [(_ & Hfrm & Hto & _) _].
  set (r := transfer_record _ _ _ _).
  set (m := mask _ _).
  assert (Hzero : total (scale m r) = 0).
  { rewrite total_scale. unfold r.
    by rewrite sum_transfer_record, Z.mul_0_r. }
  split; simpl.
  - destruct (SimpleLedger.transactions l) as [|t0 rest]; [done|].
    simpl in *. apply Forall_app. split; [done|]. by repeat constructor.
  - rewrite total_plus, Hzero, Z.add_0_r, Hrun.
    + rewrite <- Hrun. apply wrap64_idemp.
    + rewrite length_scale. unfold r. rewrite length_transfer_record.
      apply Hlen.
Qed.

Lemma run_conserved c calls l :
  wf l -> conserved c l ->
  Forall (fun '(amt, frm, to) =>
            account (SimpleLedger.num_accounts l) frm
            <> account (SimpleLedger.num_accounts l) to) calls ->
  conserved c (SimpleLedger.run calls l).
Proof.
  revert l. induction calls as [|[[amt frm] to] calls IH];
    intros l Hwf Hc Hcalls; [done|].
  apply Forall_cons in Hcalls as [Hne Hcalls]. simpl.
  apply IH; [by apply transact_wf | by apply transact_conserved |].
  pose proof (session_num_accounts [(amt, frm, to)] l) as Hnum.
  simpl in Hnum. by rewrite Hnum.
Qed.

End Conservation.

(** C5, counterexample.  On the default ledger [transact(5, 0, 0)] appends
    the record [5, 0, ..., 0], which sums to 5, and the total of the balances
    becomes 1005 instead of 10 * 100. *)
Lemma conservation_counterexample :
  let l1 := exec (SimpleLedger.transact 5 0 0) default_ledger in
  SimpleLedger.__init__ 10 100 = Ok default_ledger /\
  SimpleLedger.transactions l1
  = [replicate 10 100; [5; 0; 0; 0; 0; 0; 0; 0; 0; 0]] /\
  total [5; 0; 0; 0; 0; 0; 0; 0; 0; 0] = 5 /\
  total (SimpleLedger.running_balance l1) = 1005 /\
  1005 <> 10 * 100.
Proof. repeat split; vm_compute; congruence. Qed.

(** C5, amended.  After any session of [transact] calls whose [from] and
    [to] denote two different accounts, every record of the log after the
    seed sums to zero in 64-bit wrap-around arithmetic, and the total of the
    balances, summed likewise, is [N * starting_balance] wrapped to 64
    bits. *)
Theorem total_conserved n s l0 calls :
  SimpleLedger.__init__ n s = Ok l0 ->
  Forall (fun '(amt, frm, to) => account n frm <> account n to) calls ->
  let l := SimpleLedger.run calls l0 in
  Forall (fun record => total record = 0) (tail (SimpleLedger.transactions l))
  /\ total (SimpleLedger.running_balance l) = wrap64 (n * s).
Proof.
  intros Hl Hcalls l.
  pose proof (init_wf _ _ _ Hl) as Hwf.
  apply init_inv in Hl as [[Hn Hs] ->].
  apply (run_conserved (wrap64 (n * s))); [done| |done].
  split; simpl; [constructor|].
  unfold total. rewrite sum_replicate, wrap64_mul_r.
  by rewrite Z2Nat.id by lia.
Qed.

Lemma total_conserved_witness :
  let l := SimpleLedger.run [(5, 0, 1); (100, 0, 1); (-7, 3, -1)] default_ledger in
  Forall (fun record => total record = 0) (tail (SimpleLedger.transactions l))
  /\ total (SimpleLedger.running_balance l) = wrap64 (10 * 100).
Proof.
  apply (total_conserved 10 100 default_ledger
           [(5, 0, 1); (100, 0, 1); (-7, 3, -1)] eq_refl).
  repeat constructor; vm_compute; congruence.
Defined.

(** ** More about one call: the log and the cache move together *)

Section CallFacts.
Context {E : MPCEngine}.

Lemma session_facts n s l0 calls :
  SimpleLedger.__init__ n s = Ok l0 ->
  wf (SimpleLedger.run calls l0) /\
  SimpleLedger.num_accounts (SimpleLedger.run calls l0) = n /\
  0 <= n <= int64_max.
Proof.
  intros Hl. split; [by eapply session_wf|].
  rewrite session_num_accounts. by apply init_inv in Hl as [[? _] ->].
Qed.

Lemma dsession_facts ws n s (d0 : DecentralizedLedger.t) calls :
  DecentralizedLedger.__init__ ws n s = Ok d0 ->
  DecentralizedLedger.num_accounts (DecentralizedLedger.run calls d0) = n /\
  0 <= n <= int64_max.
Proof.
  intros [Hn Hb]%dinit_num_accounts. by rewrite dsession_num_accounts.
Qed.

Lemma scale_zeros m n : scale m (replicate n 0) = replicate n 0.
Proof.
  unfold scale. rewrite fmap_replicate, Z.mul_0_l. reflexivity.
Qed.

Lemma transfer_record_zero n frm to :
  transfer_record n 0 frm to = replicate (Z.to_nat n) 0.
Proof.
  unfold transfer_record. rewrite Z.opp_0. by rewrite !insert_replicate.
Qed.

End CallFacts.



(** X2. After any session, [transact(0, from, to)] with [from] and [to] in
    [-N, N) returns normally, appends the all-zero record and leaves every
    balance as it is, whatever the balances are; on the shared ledger the
    revealed balances are unchanged. *)
Theorem zero_amount_is_noop {E : MPCEngine} {EC : MPCEngineCorrect E}
    n s l0 ws d0 calls frm to :
  SimpleLedger.__init__ n s = Ok l0 ->
  DecentralizedLedger.__init__ ws n s = Ok d0 ->
  valid_index n frm -> valid_index n to ->
  let l := SimpleLedger.run calls l0 in
  let d := DecentralizedLedger.run calls d0 in
  let l' := exec (SimpleLedger.transact 0 frm to) l in
  let d' := exec (DecentralizedLedger.transact 0 frm to) d in
  outcome (SimpleLedger.transact 0 frm to) l = Ok tt /\
  SimpleLedger.transactions l'
  = SimpleLedger.transactions l ++ [replicate (Z.to_nat n) 0] /\
  SimpleLedger.running_balance l' = SimpleLedger.running_balance l /\
  outcome (DecentralizedLedger.transact 0 frm to) d = Ok tt /\
  DecentralizedLedger.revealed_balances d'
  = DecentralizedLedger.revealed_balances d.
Proof.
  intros Hl Hd Hfrm Hto l d l' d'.
  destruct (session_facts n s l0 calls Hl) as (Hwf & Hn & Hb). fold l in Hwf, Hn.
  assert (Hrec : build_record (SimpleLedger.num_accounts l) 0 frm to
                 = Ok (replicate (Z.to_nat n) 0)).
  { rewrite Hn, build_record_Ok, transfer_record_zero; done. }
  pose proof (transact_commit l 0 frm to _ Hrec) as Hcall.
  rewrite scale_zeros in Hcall.
  destruct Hwf as [_ _ [Hlen H64] _]. specialize (Hcall Hlen).
  assert (Hrun : SimpleLedger.running_balance l' = SimpleLedger.running_balance l).
  { unfold l', exec. rewrite Hcall. simpl. apply plus_zeros; [done|].
    by rewrite Hlen, Hn. }
  assert (Hout : outcome (SimpleLedger.transact 0 frm to) l = Ok tt)
    by (unfold outcome; by rewrite Hcall).
  split; [done|]. split; [by unfold l', exec; rewrite Hcall|]. split; [done|].
  destruct (session_simulation ws n s d0 calls Hd) as (l0' & Hl' & Hrev & Hdwf).
  assert (l0' = l0) as -> by congruence. fold l d in Hrev, Hdwf.
  pose proof (session_coherent ws n s d0 calls Hd) as Hco. fold d in Hco.
  destruct (dtransact_observation d 0 frm to Hdwf Hco) as [Hdout Hdbal].
  rewrite Hrev in Hdout, Hdbal. split; [congruence|].
  unfold d'. rewrite Hdbal, compute_balances_wf.
  - fold l'. rewrite Hrun, revealed_balances_coherent, Hrev; done.
  - apply transact_wf. by eapply session_wf.
Qed.

Lemma zero_amount_is_noop_witness :
  let l := default_ledger in
  let d := default_shared_ledger in
  let l' := exec (SimpleLedger.transact 0 3 (-1)) l in
  let d' := exec (DecentralizedLedger.transact 0 3 (-1)) d in
  outcome (SimpleLedger.transact 0 3 (-1)) l = Ok tt /\
  SimpleLedger.transactions l'
  = SimpleLedger.transactions l ++ [replicate (Z.to_nat 10) 0] /\
  SimpleLedger.running_balance l' = SimpleLedger.running_balance l /\
  outcome (DecentralizedLedger.transact 0 3 (-1)) d = Ok tt /\
  DecentralizedLedger.revealed_balances d'
  = DecentralizedLedger.revealed_balances d.
Proof.
  apply (zero_amount_is_noop (E := IdealEngine) (EC := IdealEngine_correct)
           10 100 default_ledger ["jp_norgan"; "ubz"]%string
           default_shared_ledger [] 3 (-1) eq_refl eq_refl);
    unfold valid_index; lia.
Defined.

(** ** Transfers between two accounts of a ledger without negative balances *)

Section TwoAccounts.
Context {E : MPCEngine} {EC : MPCEngineCorrect E}.

(** What the owners see of a call on the shared ledger is what the same call
    does on the plaintext ledger. *)
Lemma shared_call_observed n s l0 ws d0 calls amt frm to :
  SimpleLedger.__init__ n s = Ok l0 ->
  DecentralizedLedger.__init__ ws n s = Ok d0 ->
  let l := SimpleLedger.run calls l0 in
  let d := DecentralizedLedger.run calls d0 in
  outcome (DecentralizedLedger.transact amt frm to) d
  = outcome (SimpleLedger.transact amt frm to) l /\
  DecentralizedLedger.revealed_balances
    (exec (DecentralizedLedger.transact amt frm to) d)
  = Ok (SimpleLedger.running_balance (exec (SimpleLedger.transact amt frm to) l)) /\
  DecentralizedLedger.revealed_balances d = Ok (SimpleLedger.running_balance l).
Proof.
  intros Hl Hd l d.
  destruct (session_simulation ws n s d0 calls Hd) as (l0' & Hl' & Hrev & Hdwf).
  assert (l0' = l0) as -> by congruence. fold l d in Hrev, Hdwf.
  pose proof (session_coherent ws n s d0 calls Hd) as Hco. fold d in Hco.
  destruct (dtransact_observation d amt frm to Hdwf Hco) as [Hdout Hdbal].
  rewrite Hrev in Hdout, Hdbal. split; [done|]. split.
  - rewrite Hdbal. apply compute_balances_wf, transact_wf.
    by eapply session_wf.
  - by rewrite revealed_balances_coherent, Hrev.
Qed.

Lemma negatives_insert_gen (t : LongTensor) i v :
  (i < length t)%nat ->
  negatives (<[i := v]> t) = negatives t - negative (t !!! i) + negative v.
Proof.
  revert i. induction t as [|x t IH]; intros i Hi; [simpl in Hi; lia|].
  destruct i as [|i].
  - change (<[0%nat := v]> (x :: t)) with (v :: t).
    change ((x :: t) !!! 0%nat) with x.
    rewrite !negatives_cons. unfold negative. lia.
  - change (<[S i := v]> (x :: t)) with (x :: <[i := v]> t).
    change ((x :: t) !!! S i) with (t !!! i).
    rewrite !negatives_cons, IH by (simpl in Hi; lia). lia.
Qed.

Lemma plus_transfer_record (a : LongTensor) n amt frm to :
  Forall int64 a -> length a = Z.to_nat n ->
  valid_index n frm -> valid_index n to ->
  plus a (transfer_record n amt frm to)
  = moved a amt (Z.to_nat (account n frm)) (Z.to_nat (account n to)).
Proof.
  intros Ha Hlen Hfrm%account_range Hto%account_range.
  unfold transfer_record, moved.
  set (i := Z.to_nat (account n frm)). set (j := Z.to_nat (account n to)).
  assert (Hj : a !! j = Some (a !!! j))
    by (apply list_lookup_lookup_total_lt; lia).
  rewrite <- (list_insert_id a j (a !!! j)) at 1 by done.
  unfold plus. rewrite <- insert_zip_with.
  fold (plus a (<[i := - amt]> (replicate (Z.to_nat n) 0))).
  rewrite plus_insert_zeros by (done || lia). done.
Qed.

Lemma negatives_moved (a : LongTensor) amt i j :
  Forall (fun b => 0 <= b) a -> (i < length a)%nat -> (j < length a)%nat ->
  i <> j ->
  negatives (moved a amt i j)
  = negative (wrap64 (a !!! i + - amt)) + negative (wrap64 (a !!! j + amt)).
Proof.
  intros Ha Hi Hj Hne. unfold moved.
  rewrite negatives_insert_gen by (by rewrite length_insert).
  rewrite list_lookup_total_insert_ne by done.
  rewrite negatives_insert_gen by done.
  apply negatives_zero in Ha as Hzero. rewrite Hzero.
  assert (Hnn : forall k, (k < length a)%nat -> negative (a !!! k) = 0).
  { intros k Hk. unfold negative.
    assert (0 <= a !!! k); [|by destruct (Z.ltb_spec (a !!! k) 0); lia].
    eapply (Forall_lookup_1 _ a k); [done|].
    apply list_lookup_lookup_total_lt. lia. }
  rewrite !Hnn by done. lia.
Qed.

(** The two regimes of a transfer of a non-negative amount between two
    different accounts, when the credit does not overflow. *)
Lemma transfer_between_two_accounts l amt frm to :
  wf l ->
  let n := SimpleLedger.num_accounts l in
  let balance := SimpleLedger.running_balance l in
  let i := Z.to_nat (account n frm) in
  let j := Z.to_nat (account n to) in
  Forall (fun b => 0 <= b) balance ->
  valid_index n frm -> valid_index n to -> account n frm <> account n to ->
  0 <= amt <= int64_max -> balance !!! j + amt <= int64_max ->
  SimpleLedger.transact amt frm to l
  = (Ok tt,
     if amt <=? balance !!! i
     then commit (transfer_record n amt frm to) l
     else SimpleLedger.append (replicate (Z.to_nat n) 0) l)
  /\ (amt <= balance !!! i ->
      plus balance (transfer_record n amt frm to)
      = <[j := balance !!! j + amt]> (<[i := balance !!! i - amt]> balance)).
Proof.
  intros Hwf n balance i j Hpos Hfrm Hto Hne Hamt Hcredit.
  pose proof Hwf as [Hn _ [Hlen H64] _]. fold n balance in Hn, Hlen, H64.
  pose proof (account_range _ _ Hfrm) as Hi.
  pose proof (account_range _ _ Hto) as Hj.
  assert (Hbi : 0 <= balance !!! i <= int64_max).
  { split.
    - eapply (Forall_lookup_1 _ balance i); [done|].
      apply list_lookup_lookup_total_lt. lia.
    - eapply (Forall_lookup_1 _ balance i) in H64 as [_ ?]; [done|].
      apply list_lookup_lookup_total_lt. lia. }
  assert (Hbj : 0 <= balance !!! j).
  { eapply (Forall_lookup_1 _ balance j); [done|].
    apply list_lookup_lookup_total_lt. lia. }
  assert (Hrec : build_record n amt frm to = Ok (transfer_record n amt frm to)).
  { apply build_record_Ok; try done. unfold storable. lia. }
  assert (Hcand : plus balance (transfer_record n amt frm to)
                  = moved balance amt i j) by (by apply plus_transfer_record).
  assert (Hneg : negatives (plus balance (transfer_record n amt frm to))
                 = if amt <=? balance !!! i then 0 else 1).
  { rewrite Hcand, negatives_moved by (done || lia).
    rewrite !wrap64_small by (unfold int64_min, int64_max in *; lia).
    unfold negative.
    destruct (Z.ltb_spec (balance !!! i + - amt) 0),
      (Z.ltb_spec (balance !!! j + amt) 0),
      (Z.leb_spec amt (balance !!! i)); lia. }
  split.
  - rewrite (transact_commit _ _ _ _ _ Hrec Hlen). f_equal.
    destruct (Z.leb_spec amt (balance !!! i)).
    + pose proof (transact_accepts l amt frm to Hwf Hrec Hneg) as Hacc.
      unfold exec in Hacc.
      by rewrite (transact_commit _ _ _ _ _ Hrec Hlen) in Hacc.
    + pose proof (transact_rejects l amt frm to Hwf Hrec Hneg) as Hrej.
      unfold exec in Hrej.
      by rewrite (transact_commit _ _ _ _ _ Hrec Hlen) in Hrej.
  - intros Hfunded. rewrite Hcand. unfold moved.
    rewrite !wrap64_small by (unfold int64_min, int64_max in *; lia).
    by replace (balance !!! i + - amt) with (balance !!! i - amt) by lia.
Qed.

End TwoAccounts.

Section Rejection.

Lemma rejected_repeatedly l amt frm to k :
  wf l ->
  Forall (fun b => 0 <= b) (SimpleLedger.running_balance l) ->
  valid_index (SimpleLedger.num_accounts l) frm ->
  valid_index (SimpleLedger.num_accounts l) to ->
  account (SimpleLedger.num_accounts l) frm
    <> account (SimpleLedger.num_accounts l) to ->
  SimpleLedger.running_balance l
    !!! Z.to_nat (account (SimpleLedger.num_accounts l) frm) < amt <= int64_max ->
  SimpleLedger.running_balance l
    !!! Z.to_nat (account (SimpleLedger.num_accounts l) to) + amt <= int64_max ->
  SimpleLedger.running_balance
    (SimpleLedger.run (replicate k (amt, frm, to)) l)
  = SimpleLedger.running_balance l.
Proof.
  revert l. induction k as [|k IH]; intros l Hwf Hpos Hfrm Hto Hne Hlow Hcredit;
    [done|].
  assert (Hamt : 0 <= amt <= int64_max).
  { split; [|lia].
    pose proof (account_range _ _ Hfrm) as Hi. destruct Hwf as [_ _ [Hlen _] _].
    assert (0 <= SimpleLedger.running_balance l
                   !!! Z.to_nat (account (SimpleLedger.num_accounts l) frm));
      [|lia].
    eapply (Forall_lookup_1 _ _ _ _ Hpos).
    apply list_lookup_lookup_total_lt. lia. }
  destruct (transfer_between_two_accounts l amt frm to Hwf Hpos Hfrm Hto Hne
              Hamt Hcredit) as [Hcall _].
  destruct (Z.leb_spec amt (SimpleLedger.running_balance l
              !!! Z.to_nat (account (SimpleLedger.num_accounts l) frm)));
    [lia|].
  rewrite replicate_S. simpl. unfold exec at 1. rewrite Hcall. simpl snd.
  rewrite IH; try done.
  pose proof (transact_wf l amt frm to Hwf) as Hwf'. unfold exec in Hwf'.
  by rewrite Hcall in Hwf'.
Qed.

End Rejection.

(** X3. After any session that leaves no balance negative, a transfer of an
    amount between 0 and the balance of [from], to another account whose
    balance does not overflow, returns normally, appends the record of the
    transfer as it is, debits [from] and credits [to] by the amount and
    leaves the other balances alone; the owners of the shared ledger see the
    same balances. *)
Theorem funded_transfer_moves_funds {E : MPCEngine} {EC : MPCEngineCorrect E}
    n s l0 ws d0 calls amt frm to :
  SimpleLedger.__init__ n s = Ok l0 ->
  DecentralizedLedger.__init__ ws n s = Ok d0 ->
  let l := SimpleLedger.run calls l0 in
  let d := DecentralizedLedger.run calls d0 in
  let balance := SimpleLedger.running_balance l in
  let i := Z.to_nat (account n frm) in
  let j := Z.to_nat (account n to) in
  let after := <[j := balance !!! j + amt]> (<[i := balance !!! i - amt]> balance) in
  Forall (fun b => 0 <= b) balance ->
  valid_index n frm -> valid_index n to -> account n frm <> account n to ->
  0 <= amt <= balance !!! i -> balance !!! j + amt <= int64_max ->
  outcome (SimpleLedger.transact amt frm to) l = Ok tt /\
  SimpleLedger.transactions (exec (SimpleLedger.transact amt frm to) l)
  = SimpleLedger.transactions l ++ [transfer_record n amt frm to] /\
  SimpleLedger.running_balance (exec (SimpleLedger.transact amt frm to) l)
  = after /\
  outcome (DecentralizedLedger.transact amt frm to) d = Ok tt /\
  DecentralizedLedger.revealed_balances
    (exec (DecentralizedLedger.transact amt frm to) d) = Ok after.
Proof.
  intros Hl Hd l d balance i j after Hpos Hfrm Hto Hne Hamt Hcredit.
  destruct (session_facts n s l0 calls Hl) as (Hwf & Hn & Hb). fold l in Hwf, Hn.
  destruct (shared_call_observed n s l0 ws d0 calls amt frm to Hl Hd)
    as (Hdout & Hdbal & _). fold l d in Hdout, Hdbal.
  rewrite <- Hn in Hfrm, Hto, Hne.
  assert (Hmax : 0 <= amt <= int64_max).
  { split; [lia|]. pose proof (account_range _ _ Hfrm) as Hi.
    destruct Hwf as [_ _ [Hlen H64] _]. fold balance in Hlen, H64.
    assert (int64 (balance !!! i)) as [_ ?]; [|lia].
    eapply (Forall_lookup_1 _ _ _ _ H64).
    apply list_lookup_lookup_total_lt. unfold i. rewrite <- Hn. lia. }
  destruct (transfer_between_two_accounts l amt frm to Hwf Hpos Hfrm Hto Hne
              Hmax) as [Hcall Hplus]; [by rewrite Hn|].
  rewrite Hn in Hcall, Hplus. fold balance i j in Hcall, Hplus.
  destruct (Z.leb_spec amt (balance !!! i)); [|lia].
  assert (Hrun : SimpleLedger.running_balance
                   (exec (SimpleLedger.transact amt frm to) l) = after).
  { unfold exec. rewrite Hcall. simpl. by apply Hplus. }
  unfold outcome, exec in *. rewrite Hcall in *. simpl in *.
  repeat split; congruence.
Qed.

Lemma funded_transfer_moves_funds_witness :
  let after := <[Z.to_nat (account 10 (-1)) := 100 + 30]>
                 (<[Z.to_nat (account 10 2) := 100 - 30]> (replicate 10 100)) in
  outcome (SimpleLedger.transact 30 2 (-1)) default_ledger = Ok tt /\
  SimpleLedger.transactions (exec (SimpleLedger.transact 30 2 (-1)) default_ledger)
  = SimpleLedger.transactions default_ledger ++ [transfer_record 10 30 2 (-1)] /\
  SimpleLedger.running_balance
    (exec (SimpleLedger.transact 30 2 (-1)) default_ledger) = after /\
  outcome (DecentralizedLedger.transact 30 2 (-1)) default_shared_ledger = Ok tt /\
  DecentralizedLedger.revealed_balances
    (exec (DecentralizedLedger.transact 30 2 (-1)) default_shared_ledger)
  = Ok after.
Proof.
  apply (funded_transfer_moves_funds (E := IdealEngine)
           (EC := IdealEngine_correct) 10 100 default_ledger
           ["jp_norgan"; "ubz"]%string default_shared_ledger [] 30 2 (-1)
           eq_refl eq_refl).
  - repeat constructor; lia.
  - unfold valid_index; lia.
  - unfold valid_index; lia.
  - vm_compute; congruence.
  - vm_compute; split; congruence.
  - vm_compute; congruence.
Defined.

(** X4. After any session that leaves no balance negative, a transfer of more
    than the balance of [from] (to another account, whose balance would not
    overflow) returns normally, appends the all-zero record of N entries and
    leaves every balance as it is; submitting it any number of times leaves
    the balances as they are.  The revealed balances of the shared ledger
    do not change either. *)
Theorem unfunded_transfer_is_rejected {E : MPCEngine} {EC : MPCEngineCorrect E}
    n s l0 ws d0 calls amt frm to :
  SimpleLedger.__init__ n s = Ok l0 ->
  DecentralizedLedger.__init__ ws n s = Ok d0 ->
  let l := SimpleLedger.run calls l0 in
  let d := DecentralizedLedger.run calls d0 in
  let balance := SimpleLedger.running_balance l in
  let i := Z.to_nat (account n frm) in
  let j := Z.to_nat (account n to) in
  Forall (fun b => 0 <= b) balance ->
  valid_index n frm -> valid_index n to -> account n frm <> account n to ->
  balance !!! i < amt <= int64_max -> balance !!! j + amt <= int64_max ->
  outcome (SimpleLedger.transact amt frm to) l = Ok tt /\
  SimpleLedger.transactions (exec (SimpleLedger.transact amt frm to) l)
  = SimpleLedger.transactions l ++ [replicate (Z.to_nat n) 0] /\
  (forall k,
      SimpleLedger.running_balance
        (SimpleLedger.run (replicate k (amt, frm, to)) l) = balance) /\
  outcome (DecentralizedLedger.transact amt frm to) d = Ok tt /\
  DecentralizedLedger.revealed_balances
    (exec (DecentralizedLedger.transact amt frm to) d)
  = DecentralizedLedger.revealed_balances d.
Proof.
  intros Hl Hd l d balance i j Hpos Hfrm Hto Hne Hamt Hcredit.
  destruct (session_facts n s l0 calls Hl) as (Hwf & Hn & Hb). fold l in Hwf, Hn.
  destruct (shared_call_observed n s l0 ws d0 calls amt frm to Hl Hd)
    as (Hdout & Hdbal & Hdnow). fold l d in Hdout, Hdbal, Hdnow.
  rewrite <- Hn in Hfrm, Hto, Hne.
  assert (Hrep : forall k,
             SimpleLedger.running_balance
               (SimpleLedger.run (replicate k (amt, frm, to)) l) = balance).
  { intros k. apply rejected_repeatedly; try done; by rewrite Hn. }
  assert (Hmax : 0 <= amt <= int64_max).
  { split; [|lia]. pose proof (account_range _ _ Hfrm) as Hi.
    destruct Hwf as [_ _ [Hlen _] _]. fold balance in Hlen.
    assert (0 <= balance !!! i); [|lia].
    eapply (Forall_lookup_1 _ _ _ _ Hpos).
    apply list_lookup_lookup_total_lt. unfold i. rewrite <- Hn. lia. }
  destruct (transfer_between_two_accounts l amt frm to Hwf Hpos Hfrm Hto Hne
              Hmax) as [Hcall _]; [by rewrite Hn|].
  rewrite Hn in Hcall. fold balance i j in Hcall.
  destruct (Z.leb_spec amt (balance !!! i)); [lia|].
  unfold outcome, exec in *. rewrite Hcall in *. simpl in *.
  repeat split; congruence.
Qed.

Lemma unfunded_transfer_is_rejected_witness :
  outcome (SimpleLedger.transact 101 0 1) default_ledger = Ok tt /\
  SimpleLedger.transactions (exec (SimpleLedger.transact 101 0 1) default_ledger)
  = SimpleLedger.transactions default_ledger ++ [replicate (Z.to_nat 10) 0] /\
  (forall k,
      SimpleLedger.running_balance
        (SimpleLedger.run (replicate k (101, 0, 1)) default_ledger)
      = SimpleLedger.running_balance default_ledger) /\
  outcome (DecentralizedLedger.transact 101 0 1) default_shared_ledger = Ok tt /\
  DecentralizedLedger.revealed_balances
    (exec (DecentralizedLedger.transact 101 0 1) default_shared_ledger)
  = DecentralizedLedger.revealed_balances default_shared_ledger.
Proof.
  apply (unfunded_transfer_is_rejected (E := IdealEngine)
           (EC := IdealEngine_correct) 10 100 default_ledger
           ["jp_norgan"; "ubz"]%string default_shared_ledger [] 101 0 1
           eq_refl eq_refl).
  - repeat constructor; lia.
  - unfold valid_index; lia.
  - unfold valid_index; lia.
  - vm_compute; congruence.
  - vm_compute; split; congruence.
  - vm_compute; congruence.
Defined.

(** ** Sessions that can not overflow *)

Section NoOverflow.

Lemma negatives_zeros n : negatives (replicate n 0) = 0.
Proof. apply negatives_zero, Forall_replicate. lia. Qed.

Lemma negatives_transfer_record n amt frm to :
  valid_index n frm -> valid_index n to ->
  negatives (transfer_record n amt frm to) <= 1.
Proof.
  intros Hfrm%account_range Hto%account_range. unfold transfer_record.
  set (i := Z.to_nat (account n frm)). set (j := Z.to_nat (account n to)).
  rewrite negatives_insert_gen
    by (rewrite length_insert, length_replicate; lia).
  rewrite negatives_insert_gen by (rewrite length_replicate; lia).
  rewrite negatives_zeros, lookup_total_replicate_2 by lia.
  destruct (decide (i = j)) as [->|Hne].
  - rewrite list_lookup_total_insert_eq by (rewrite length_replicate; lia).
    unfold negative. destruct (0 <? 0), (- amt <? 0), (amt <? 0); lia.
  - rewrite list_lookup_total_insert_ne, lookup_total_replicate_2 by lia.
    unfold negative.
    destruct (Z.ltb_spec 0 0), (Z.ltb_spec (- amt) 0), (Z.ltb_spec amt 0); lia.
Qed.

Lemma transfer_record_bounded n amt frm to :
  Forall (fun x => - Z.abs amt <= x <= Z.abs amt) (transfer_record n amt frm to).
Proof.
  unfold transfer_record.
  apply Forall_insert; [apply Forall_insert; [apply Forall_replicate|]|]; lia.
Qed.

Lemma plus_bounded (a r : LongTensor) U m :
  length a = length r ->
  Forall (fun b => 0 <= b <= U) a -> Forall (fun x => - m <= x <= m) r ->
  U + m <= int64_max ->
  negatives (plus a r) <= negatives r /\
  Forall (fun c => c <= U + m) (plus a r).
Proof.
  intros Hlen Ha. revert r Hlen.
  induction Ha as [|b a Hb Ha IH]; intros [|x r] Hlen Hr Hmax;
    try discriminate Hlen; [by split|].
  injection Hlen as Hlen. apply Forall_cons in Hr as [Hx Hr].
  destruct (IH r Hlen Hr Hmax) as [IHn IHb]. unfold plus in *.
  change (zip_with ?f (b :: a) (x :: r)) with (f b x :: zip_with f a r).
  rewrite !negatives_cons.
  rewrite wrap64_small by (unfold int64_min, int64_max in *; lia).
  split.
  - destruct (Z.ltb_spec (b + x) 0), (Z.ltb_spec x 0); lia.
  - constructor; [lia | done].
Qed.

(** One call keeps the balances between 0 and the bound, raised by the
    absolute amount. *)
Lemma transact_bounded l amt frm to U :
  wf l ->
  Forall (fun b => 0 <= b <= U) (SimpleLedger.running_balance l) ->
  U + Z.abs amt <= int64_max ->
  Forall (fun b => 0 <= b <= U + Z.abs amt)
    (SimpleLedger.running_balance (exec (SimpleLedger.transact amt frm to) l)).
Proof.
  intros Hwf Hb Hmax.
  assert (Hweak : Forall (fun b => 0 <= b <= U + Z.abs amt)
                    (SimpleLedger.running_balance l)).
  { eapply Forall_impl; [done|]. simpl. lia. }
  pose proof Hwf as [_ _ [Hlen _] _].
  destruct (transact_cases l amt frm to Hlen)
    as [(e & _ & Hcall)|(Hrec & _ & _)];
    [unfold exec; by rewrite Hcall|].
  pose proof Hrec as [(_ & Hfrm & Hto & _) _]%build_record_inv.
  set (r := transfer_record _ _ _ _) in *.
  destruct (plus_bounded (SimpleLedger.running_balance l) r U (Z.abs amt))
    as [Hneg Hup]; [|done|apply transfer_record_bounded|done|].
  { unfold r. by rewrite length_transfer_record. }
  pose proof (negatives_transfer_record _ amt _ _ Hfrm Hto) as Hone.
  fold r in Hone.
  pose proof (negatives_bounds (plus (SimpleLedger.running_balance l) r)) as [Hlo _].
  destruct (decide (negatives (plus (SimpleLedger.running_balance l) r) = 0))
    as [Hzero|Hnz].
  - rewrite (transact_accepts l amt frm to Hwf Hrec Hzero). simpl.
    apply negatives_zero in Hzero. fold r.
    by apply Forall_and.
  - assert (Hrej : negatives (plus (SimpleLedger.running_balance l) r) = 1)
      by lia.
    by rewrite (transact_rejects l amt frm to Hwf Hrec Hrej).
Qed.

Lemma run_bounded calls l U :
  wf l ->
  Forall (fun b => 0 <= b <= U) (SimpleLedger.running_balance l) ->
  U + volume calls <= int64_max ->
  Forall (fun b => 0 <= b <= U + volume calls)
    (SimpleLedger.running_balance (SimpleLedger.run calls l)).
Proof.
  revert l U. induction calls as [|[[amt frm] to] calls IH];
    intros l U Hwf Hb Hmax.
  - simpl. eapply Forall_impl; [done|]. simpl. lia.
  - assert (Hvol : 0 <= volume calls).
    { clear. induction calls as [|[[? ?] ?] calls IH]; simpl; lia. }
    change (volume ((amt, frm, to) :: calls)) with (Z.abs amt + volume calls)
      in *.
    simpl SimpleLedger.run. rewrite Z.add_assoc.
    apply IH; [by apply transact_wf| |lia].
    apply transact_bounded; [done|done|lia].
Qed.

End NoOverflow.

(** X5. When the starting balance is not negative and the starting balance
    plus the absolute amounts of all the calls of a session does not exceed
    2^63 - 1, every balance after the session lies between 0 and that sum,
    whatever the indices and the signs of the amounts are; the same holds
    for the revealed balances of the shared ledger. *)
Theorem no_overdraft_without_overflow {E : MPCEngine} {EC : MPCEngineCorrect E}
    n s l0 ws d0 calls :
  SimpleLedger.__init__ n s = Ok l0 ->
  DecentralizedLedger.__init__ ws n s = Ok d0 ->
  0 <= s -> s + volume calls <= int64_max ->
  Forall (fun b => 0 <= b <= s + volume calls)
    (SimpleLedger.running_balance (SimpleLedger.run calls l0)) /\
  exists balance,
    DecentralizedLedger.revealed_balances (DecentralizedLedger.run calls d0)
    = Ok balance /\
    Forall (fun b => 0 <= b <= s + volume calls) balance.
Proof.
  intros Hl Hd Hs Hmax.
  assert (Hb : Forall (fun b => 0 <= b <= s + volume calls)
                 (SimpleLedger.running_balance (SimpleLedger.run calls l0))).
  { apply run_bounded; [by eapply init_wf| |done].
    apply init_inv in Hl as [[_ H64] ->]. simpl.
    rewrite wrap64_small by done. apply Forall_replicate. lia. }
  split; [done|].
  destruct (shared_call_observed n s l0 ws d0 calls 0 0 0 Hl Hd)
    as (_ & _ & Hnow).
  eexists. split; done.
Qed.

Lemma no_overdraft_without_overflow_witness :
  let calls := [(150, 0, 1); (-20, 2, 2); (60, -1, 0); (7, 3, 3)] in
  Forall (fun b => 0 <= b <= 100 + volume calls)
    (SimpleLedger.running_balance (SimpleLedger.run calls default_ledger)) /\
  exists balance,
    DecentralizedLedger.revealed_balances
      (DecentralizedLedger.run calls default_shared_ledger)
    = Ok balance /\
    Forall (fun b => 0 <= b <= 100 + volume calls) balance.
Proof.
  apply (no_overdraft_without_overflow (E := IdealEngine)
           (EC := IdealEngine_correct) 10 100 default_ledger
           ["jp_norgan"; "ubz"]%string default_shared_ledger
           [(150, 0, 1); (-20, 2, 2); (60, -1, 0); (7, 3, 3)]
           eq_refl eq_refl).
  - lia.
  - vm_compute; congruence.
Defined.

(** ** The shared ledger and the plaintext ledger *)

(** X6. Over a correct engine, a shared ledger built by its constructor and
    taken through any session reveals to the plaintext ledger built with the
    same arguments and taken through the same session: same revealed log,
    same revealed balances, same outcome of every further call; and its
    cached [zeros] still reveals to N zeros. *)
Theorem shared_ledger_reveals_plaintext_ledger
    {E : MPCEngine} {EC : MPCEngineCorrect E} ws n s d0 calls :
  DecentralizedLedger.__init__ ws n s = Ok d0 ->
  let d := DecentralizedLedger.run calls d0 in
  exists l0,
    SimpleLedger.__init__ n s = Ok l0 /\
    let l := SimpleLedger.run calls l0 in
    get <$> DecentralizedLedger.transactions d = SimpleLedger.transactions l /\
    DecentralizedLedger.revealed_balances d
    = outcome SimpleLedger.compute_balances l /\
    get (DecentralizedLedger.zeros d) = replicate (Z.to_nat n) 0 /\
    forall amt frm to,
      outcome (DecentralizedLedger.transact amt frm to) d
      = outcome (SimpleLedger.transact amt frm to) l.
Proof.
  intros Hd d.
  destruct (session_simulation ws n s d0 calls Hd) as (l0 & Hl & Hrev & Hdwf).
  fold d in Hrev, Hdwf. exists l0. split; [done|]. intros l. subst l.
  destruct (dsession_facts ws n s d0 calls Hd) as [Hn _]. fold d in Hn.
  split; [by rewrite <- Hrev|]. split; [|split].
  - destruct (shared_call_observed n s l0 ws d0 calls 0 0 0 Hl Hd)
      as (_ & _ & Hnow).
    fold d in Hnow. rewrite Hnow, compute_balances_wf; [done|].
    by eapply session_wf.
  - destruct Hdwf as [_ Hz]. by rewrite Hz, Hn.
  - intros amt frm to.
    by destruct (shared_call_observed n s l0 ws d0 calls amt frm to Hl Hd)
      as (Hout & _ & _).
Qed.

Lemma shared_ledger_reveals_plaintext_ledger_witness :
  let calls := [(5, 0, 1); (100, 0, 1); (95, 0, 1)] in
  let d := DecentralizedLedger.run calls default_shared_ledger in
  exists l0,
    SimpleLedger.__init__ 10 100 = Ok l0 /\
    let l := SimpleLedger.run calls l0 in
    get <$> DecentralizedLedger.transactions d = SimpleLedger.transactions l /\
    DecentralizedLedger.revealed_balances d
    = outcome SimpleLedger.compute_balances l /\
    get (DecentralizedLedger.zeros d) = replicate (Z.to_nat 10) 0 /\
    forall amt frm to,
      outcome (DecentralizedLedger.transact amt frm to) d
      = outcome (SimpleLedger.transact amt frm to) l.
Proof.
  exact (shared_ledger_reveals_plaintext_ledger (E := IdealEngine)
           (EC := IdealEngine_correct) ["jp_norgan"; "ubz"]%string 10 100
           default_shared_ledger [(5, 0, 1); (100, 0, 1); (95, 0, 1)] eq_refl).
Defined.

(** X7. Over a correct engine, after any session, the mask that the shared
    ledger computes for a record of N entries reveals to N copies of one
    minus the number of negative entries of the revealed candidate balance:
    the same number as the mask of the plaintext ledger, replicated. *)
Theorem shared_mask_is_replicated {E : MPCEngine} {EC : MPCEngineCorrect E}
    ws n s d0 calls record :
  DecentralizedLedger.__init__ ws n s = Ok d0 ->
  length record = Z.to_nat n ->
  let d := DecentralizedLedger.run calls d0 in
  let shared := share record (DecentralizedLedger.owners d) in
  let candidate_balance :=
    secure_add (DecentralizedLedger.running_balance d) shared in
  get (DecentralizedLedger.neg_check candidate_balance
         (DecentralizedLedger.zeros d) (DecentralizedLedger.num_accounts d))
  = replicate (Z.to_nat n)
      (mask (get (DecentralizedLedger.running_balance d)) record)
  /\ SimpleLedger.neg_check
       (plus (get (DecentralizedLedger.running_balance d)) record)
     = Ok (mask (get (DecentralizedLedger.running_balance d)) record).
Proof.
  intros Hd Hlen d shared candidate_balance.
  destruct (session_simulation ws n s d0 calls Hd) as (l0 & Hl & Hrev & Hdwf).
  fold d in Hrev, Hdwf.
  destruct (dsession_facts ws n s d0 calls Hd) as [Hn Hb]. fold d in Hn.
  destruct Hdwf as [[_ _ [Hrun _] _] Hz]. simpl in Hrun.
  rewrite Hn in *. split; [|done].
  assert (Hcand : get candidate_balance
                  = plus (get (DecentralizedLedger.running_balance d)) record).
  { apply get_add. unfold shared. rewrite get_share. apply add_same.
    congruence. }
  rewrite neg_check_reveal; try done.
  - by rewrite Hcand.
  - rewrite Hcand, length_plus; congruence.
Qed.

Lemma shared_mask_is_replicated_witness :
  let d := default_shared_ledger in
  let record := [- int64_max; int64_max; 0; 0; 0; 0; 0; 0; 0; 0] in
  let shared := share record (DecentralizedLedger.owners d) in
  let candidate_balance :=
    secure_add (DecentralizedLedger.running_balance d) shared in
  get (DecentralizedLedger.neg_check candidate_balance
         (DecentralizedLedger.zeros d) (DecentralizedLedger.num_accounts d))
  = replicate (Z.to_nat 10)
      (mask (get (DecentralizedLedger.running_balance d)) record)
  /\ SimpleLedger.neg_check
       (plus (get (DecentralizedLedger.running_balance d)) record)
     = Ok (mask (get (DecentralizedLedger.running_balance d)) record).
Proof.
  exact (shared_mask_is_replicated (E := IdealEngine)
           (EC := IdealEngine_correct) ["jp_norgan"; "ubz"]%string 10 100
           default_shared_ledger []
           [- int64_max; int64_max; 0; 0; 0; 0; 0; 0; 0; 0] eq_refl eq_refl).
Defined.

(** ** A negative amount is a transfer in the other direction *)

Section Reverse.
Context {E : MPCEngine}.

Lemma build_record_reverse n amt frm to :
  0 <= n <= int64_max -> valid_index n frm -> valid_index n to ->
  account n frm <> account n to ->
  build_record n (- amt) frm to = build_record n amt to frm.
Proof.
  intros Hn Hfrm Hto Hne. unfold build_record, zeros.
  rewrite full_Ok, !bind_Ok by done.
  assert (Hlen : Z.of_nat (length (replicate (Z.to_nat n) 0)) = n)
    by (rewrite length_replicate; lia).
  rewrite !(setitem_valid (replicate _ _)) by (rewrite Hlen; done || lia).
  rewrite Hlen, Z.opp_involutive.
  destruct (to_int64 amt) as [v1|e1] eqn:H1;
    destruct (to_int64 (- amt)) as [v2|e2] eqn:H2; rewrite ?bind_Ok.
  - rewrite !setitem_valid by (rewrite length_insert, Hlen; done || lia).
    rewrite H1, H2, !bind_Ok, !length_insert, Hlen. f_equal.
    apply list_insert_insert_ne.
    pose proof (account_range _ _ Hfrm). pose proof (account_range _ _ Hto).
    lia.
  - rewrite setitem_valid by (rewrite length_insert, Hlen; done || lia).
    by rewrite H2.
  - rewrite setitem_valid by (rewrite length_insert, Hlen; done || lia).
    rewrite H1. unfold to_int64 in H1, H2.
    repeat case_bool_decide; by simplify_eq.
  - unfold to_int64 in H1, H2. repeat case_bool_decide; by simplify_eq.
Qed.

Lemma transact_by_record l amt frm to amt' frm' to' :
  build_record (SimpleLedger.num_accounts l) amt frm to
  = build_record (SimpleLedger.num_accounts l) amt' frm' to' ->
  SimpleLedger.transact amt frm to l = SimpleLedger.transact amt' frm' to' l.
Proof.
  intros Hr. unfold SimpleLedger.transact. by rewrite !bind_gets, Hr.
Qed.

Lemma dtransact_by_record (d : DecentralizedLedger.t) amt frm to amt' frm' to' :
  build_record (DecentralizedLedger.num_accounts d) amt frm to
  = build_record (DecentralizedLedger.num_accounts d) amt' frm' to' ->
  DecentralizedLedger.transact amt frm to d
  = DecentralizedLedger.transact amt' frm' to' d.
Proof.
  intros Hr. unfold DecentralizedLedger.transact. by rewrite !bind_gets, Hr.
Qed.

End Reverse.

(** X8. After any session, for [from] and [to] in [-N, N) that denote two
    different accounts, [transact(-amount, from, to)] is [transact(amount,
    to, from)]: same outcome (also when the amount does not fit) and same
    ledger afterwards, on the plaintext and on the shared ledger. *)
Theorem negative_amount_reverses_transfer {E : MPCEngine}
    n s l0 ws d0 calls amt frm to :
  SimpleLedger.__init__ n s = Ok l0 ->
  DecentralizedLedger.__init__ ws n s = Ok d0 ->
  valid_index n frm -> valid_index n to -> account n frm <> account n to ->
  let l := SimpleLedger.run calls l0 in
  let d := DecentralizedLedger.run calls d0 in
  SimpleLedger.transact (- amt) frm to l = SimpleLedger.transact amt to frm l /\
  DecentralizedLedger.transact (- amt) frm to d
  = DecentralizedLedger.transact amt to frm d.
Proof.
  intros Hl Hd Hfrm Hto Hne l d.
  destruct (session_facts n s l0 calls Hl) as (_ & Hn & Hb). fold l in Hn.
  destruct (dsession_facts ws n s d0 calls Hd) as [Hdn _]. fold d in Hdn.
  split.
  - apply transact_by_record. rewrite Hn. by apply build_record_reverse.
  - apply dtransact_by_record. rewrite Hdn. by apply build_record_reverse.
Qed.

Lemma negative_amount_reverses_transfer_witness :
  SimpleLedger.transact (- 30) 2 (-1) default_ledger
  = SimpleLedger.transact 30 (-1) 2 default_ledger /\
  DecentralizedLedger.transact (- 30) 2 (-1) default_shared_ledger
  = DecentralizedLedger.transact 30 (-1) 2 default_shared_ledger.
Proof.
  apply (negative_amount_reverses_transfer (E := IdealEngine) 10 100
           default_ledger ["jp_norgan"; "ubz"]%string default_shared_ledger
           [] 30 2 (-1) eq_refl eq_refl).
  - unfold valid_index; lia.
  - unfold valid_index; lia.
  - vm_compute; congruence.
Defined.

(** ** Step 1: the ledger without checks *)

Section Step1Facts.

Lemma step1_accumulate balance ts :
  Step1.accumulate balance ts = SimpleLedger.accumulate balance ts.
Proof.
  revert balance. induction ts as [|t ts IH]; intros balance; [done|].
  simpl. destruct (add balance t); simpl; auto.
Qed.

Lemma step1_balances_of txs :
  Step1.balances_of txs = SimpleLedger.balances_of txs.
Proof. destruct txs; [done|]. apply step1_accumulate. Qed.

Lemma accumulate_tensor_of n t0 rest :
  tensor_of n t0 -> Forall (tensor_of n) rest ->
  exists balance,
    SimpleLedger.accumulate t0 rest = Ok balance /\ tensor_of n balance.
Proof.
  revert t0. induction rest as [|t rest IH]; intros t0 Ht0 Hrest;
    [by exists t0|].
  apply Forall_cons in Hrest as [Ht Hrest].
  simpl. rewrite add_same, bind_Ok by (destruct Ht0, Ht; congruence).
  apply IH; [|done]. destruct Ht0, Ht. by apply plus_tensor_of.
Qed.

Lemma balances_snoc n txs r :
  txs <> [] -> Forall (tensor_of n) txs -> length r = Z.to_nat n ->
  exists balance,
    SimpleLedger.balances_of txs = Ok balance /\ tensor_of n balance /\
    SimpleLedger.balances_of (txs ++ [r]) = Ok (plus balance r).
Proof.
  intros Hne Hall Hr. destruct txs as [|t0 rest]; [done|].
  apply Forall_cons in Hall as [Ht0 Hrest].
  destruct (accumulate_tensor_of n t0 rest Ht0 Hrest) as (b & Hb & Hten).
  exists b. split; [done|]. split; [done|].
  simpl. rewrite accumulate_snoc, Hb, bind_Ok.
  apply add_same. destruct Hten. congruence.
Qed.

Lemma step1_transact_cases l amt frm to :
  (exists e,
      build_record (Step1.SimpleLedger.num_accounts l) amt frm to = Raise e /\
      Step1.SimpleLedger.transact amt frm to l = (Raise e, l)) \/
  (exists r,
      build_record (Step1.SimpleLedger.num_accounts l) amt frm to = Ok r /\
      Step1.SimpleLedger.transact amt frm to l
      = (Ok tt, Step1.SimpleLedger.append r l)).
Proof.
  unfold Step1.SimpleLedger.transact. rewrite bind_gets.
  destruct (build_record _ _ _ _) as [r|e]; [right|left]; by eexists.
Qed.

Lemma step1_init_inv n s l :
  Step1.SimpleLedger.__init__ n s = Ok l ->
  (0 <= n <= int64_max /\ int64 s) /\
  l = {| Step1.SimpleLedger.transactions := [replicate (Z.to_nat n) s];
         Step1.SimpleLedger.num_accounts := n |}.
Proof.
  unfold Step1.SimpleLedger.__init__, ones.
  destruct (full 1 n) as [o|] eqn:Ho; [|done]. rewrite bind_Ok.
  apply full_inv in Ho as [Hn ->]. unfold mul_scalar.
  destruct (to_int64 s) as [s'|] eqn:Hs; [|done]. rewrite !bind_Ok.
  apply to_int64_inv in Hs as [-> Hs]. intros Heq; simplify_eq.
  rewrite fmap_replicate, Z.mul_1_l, wrap64_small by done. done.
Qed.

Lemma step1_init_wf n s l : Step1.SimpleLedger.__init__ n s = Ok l -> wf1 l.
Proof.
  intros [[Hn Hs] ->]%step1_init_inv. split; [done|]. split; [done|]. simpl.
  repeat constructor; [apply length_replicate | by apply Forall_replicate].
Qed.

Lemma step1_transact_wf l amt frm to :
  wf1 l -> wf1 (exec (Step1.SimpleLedger.transact amt frm to) l).
Proof.
  intros (Hn & Hne & Hall). unfold exec.
  destruct (step1_transact_cases l amt frm to)
    as [(e & _ & ->)|(r & Hr & ->)]; [done|].
  apply build_record_inv in Hr as [(_ & _ & _ & Hamt) ->].
  split; [done|]. simpl. split; [by destruct (Step1.SimpleLedger.transactions l)|].
  apply Forall_app. split; [done|]. repeat constructor.
  - apply length_transfer_record.
  - by apply transfer_record_int64.
Qed.

Lemma step1_num_accounts calls l :
  Step1.SimpleLedger.num_accounts (Step1.SimpleLedger.run calls l)
  = Step1.SimpleLedger.num_accounts l.
Proof.
  revert l. induction calls as [|[[amt frm] to] calls IH]; intros l; [done|].
  simpl. rewrite IH. unfold exec.
  by destruct (step1_transact_cases l amt frm to)
    as [(e & _ & ->)|(r & _ & ->)].
Qed.

Lemma step1_session_facts n s l0 calls :
  Step1.SimpleLedger.__init__ n s = Ok l0 ->
  wf1 (Step1.SimpleLedger.run calls l0) /\
  Step1.SimpleLedger.num_accounts (Step1.SimpleLedger.run calls l0) = n.
Proof.
  intros Hl. split.
  - apply step1_init_wf in Hl. revert l0 Hl.
    induction calls as [|[[amt frm] to] calls IH]; intros l0 Hl; [done|].
    simpl. by apply IH, step1_transact_wf.
  - rewrite step1_num_accounts. by apply step1_init_inv in Hl as [_ ->].
Qed.

End Step1Facts.

(** X9. The ledger of step 1 never rejects: after any session,
    [transact(amount, from, to)] returns exactly when [from] and [to] lie in
    [-N, N) and the amount and its opposite fit 64 bits; it then appends the
    record of the transfer unmasked, and [compute_balances()] returns the
    former balances plus that record, with wrap-around and whatever the
    balance of [from] was.  A call that raises leaves the ledger as it
    was. *)
Theorem step1_transact_is_unchecked n s l0 calls amt frm to :
  Step1.SimpleLedger.__init__ n s = Ok l0 ->
  let l := Step1.SimpleLedger.run calls l0 in
  let l' := exec (Step1.SimpleLedger.transact amt frm to) l in
  (outcome (Step1.SimpleLedger.transact amt frm to) l = Ok tt
   <-> valid_index n frm /\ valid_index n to /\ storable amt) /\
  exists balance,
    outcome Step1.SimpleLedger.compute_balances l = Ok balance /\
    length balance = Z.to_nat n /\
    match outcome (Step1.SimpleLedger.transact amt frm to) l with
    | Ok _ =>
        Step1.SimpleLedger.transactions l'
        = Step1.SimpleLedger.transactions l ++ [transfer_record n amt frm to] /\
        outcome Step1.SimpleLedger.compute_balances l'
        = Ok (moved balance amt (Z.to_nat (account n frm))
                (Z.to_nat (account n to)))
    | Raise _ => l' = l
    end.
Proof.
  intros Hl l l'.
  destruct (step1_session_facts n s l0 calls Hl) as [(Hb & Hne & Hall) Hn].
  fold l in Hb, Hne, Hall, Hn. rewrite Hn in Hb, Hall.
  assert (Hout : outcome (Step1.SimpleLedger.transact amt frm to) l
                 = (fun _ => tt) <$> build_record n amt frm to).
  { unfold outcome. rewrite <- Hn.
    by destruct (step1_transact_cases l amt frm to)
      as [(e & -> & ->)|(r & -> & ->)]. }
  split; [rewrite Hout; by apply build_record_returns|].
  destruct (balances_snoc n (Step1.SimpleLedger.transactions l)
              (transfer_record n amt frm to) Hne Hall
              (length_transfer_record _ _ _ _)) as (b & Hbal & [Hlen H64] & Hsnoc).
  exists b. unfold outcome, Step1.SimpleLedger.compute_balances.
  rewrite bind_gets. simpl. rewrite step1_balances_of.
  split; [done|]. split; [done|].
  unfold l', exec.
  destruct (step1_transact_cases l amt frm to)
    as [(e & _ & ->)|(r & Hr & ->)]; [done|].
  rewrite Hn in Hr.
  apply build_record_inv in Hr as [(_ & Hfrm & Hto & _) ->].
  simpl. split; [done|].
  rewrite step1_balances_of, Hsnoc.
  by rewrite plus_transfer_record.
Qed.

Lemma step1_transact_is_unchecked_witness :
  let l := {| Step1.SimpleLedger.transactions := [replicate 10 100];
              Step1.SimpleLedger.num_accounts := 10 |} in
  let l' := exec (Step1.SimpleLedger.transact 150 0 1) l in
  (outcome (Step1.SimpleLedger.transact 150 0 1) l = Ok tt
   <-> valid_index 10 0 /\ valid_index 10 1 /\ storable 150) /\
  exists balance,
    outcome Step1.SimpleLedger.compute_balances l = Ok balance /\
    length balance = Z.to_nat 10 /\
    match outcome (Step1.SimpleLedger.transact 150 0 1) l with
    | Ok _ =>
        Step1.SimpleLedger.transactions l'
        = Step1.SimpleLedger.transactions l ++ [transfer_record 10 150 0 1] /\
        outcome Step1.SimpleLedger.compute_balances l'
        = Ok (moved balance 150 (Z.to_nat (account 10 0))
                (Z.to_nat (account 10 1)))
    | Raise _ => l' = l
    end.
Proof.
  exact (step1_transact_is_unchecked 10 100
           {| Step1.SimpleLedger.transactions := [replicate 10 100];
              Step1.SimpleLedger.num_accounts := 10 |} [] 150 0 1 eq_refl).
Defined.

(** X10. The script of step 1 and the class of step 1 agree: after the same
    calls, the global list [transactions] of the script is the log of
    [SimpleLedger(10, 100)], and the [balance] that the script computes is
    what [compute_balances()] returns. *)
Theorem script_is_the_default_ledger calls :
  exists transactions l0,
    Step1.transactions = Ok transactions /\
    Step1.SimpleLedger.__init__ 10 100 = Ok l0 /\
    Step1.run calls transactions
    = Step1.SimpleLedger.transactions (Step1.SimpleLedger.run calls l0) /\
    outcome Step1.balance (Step1.run calls transactions)
    = outcome Step1.SimpleLedger.compute_balances
        (Step1.SimpleLedger.run calls l0).
Proof.
  do 2 eexists. split; [reflexivity|]. split; [reflexivity|].
  set (l0 := Step1.SimpleLedger.Build_t _ _).
  assert (Hrun : forall txs l,
             Step1.SimpleLedger.num_accounts l = Step1.num_accounts ->
             txs = Step1.SimpleLedger.transactions l ->
             Step1.run calls txs
             = Step1.SimpleLedger.transactions (Step1.SimpleLedger.run calls l)).
  { induction calls as [|[[amt frm] to] calls IH]; intros txs l Hn ->; [done|].
    simpl. apply IH.
    - pose proof (step1_num_accounts [(amt, frm, to)] l) as Hnum.
      simpl in Hnum. by rewrite Hnum.
    - unfold exec, Step1.transact, Step1.SimpleLedger.transact.
      rewrite bind_gets, Hn.
      by destruct (build_record Step1.num_accounts amt frm to). }
  split; [by apply Hrun|].
  unfold outcome, Step1.balance, Step1.SimpleLedger.compute_balances.
  rewrite !bind_gets. simpl. by rewrite (Hrun _ l0).
Qed.

(** ** Edge cases: no account, and what the constructors accept *)

Section Edges.
Context {E : MPCEngine}.


End Edges.



(** X12. The three constructors accept the same arguments and raise the
    same errors: a negative number of accounts or a starting balance that
    does not fit 64 bits is refused.  When a constructor returns, the number
    of accounts is not negative, the log holds exactly the seed (N copies of
    the starting balance), which is also what [compute_balances()] returns,
    and the shared ledger keeps its owners. *)
Theorem constructors_seed_the_log {E : MPCEngine} {EC : MPCEngineCorrect E}
    ws n s :
  (fun _ => tt) <$> SimpleLedger.__init__ n s
  = (fun _ => tt) <$> Step1.SimpleLedger.__init__ n s /\
  (fun _ => tt) <$> SimpleLedger.__init__ n s
  = (fun _ => tt) <$> DecentralizedLedger.__init__ ws n s /\
  (n < 0 \/ ~ int64 s -> exists e, SimpleLedger.__init__ n s = Raise e) /\
  (forall l0,
      SimpleLedger.__init__ n s = Ok l0 ->
      0 <= n /\ int64 s /\
      SimpleLedger.transactions l0 = [replicate (Z.to_nat n) s] /\
      outcome SimpleLedger.compute_balances l0 = Ok (replicate (Z.to_nat n) s)) /\
  (forall l0,
      Step1.SimpleLedger.__init__ n s = Ok l0 ->
      Step1.SimpleLedger.transactions l0 = [replicate (Z.to_nat n) s] /\
      outcome Step1.SimpleLedger.compute_balances l0
      = Ok (replicate (Z.to_nat n) s)) /\
  (forall d0,
      DecentralizedLedger.__init__ ws n s = Ok d0 ->
      DecentralizedLedger.owners d0 = ws /\
      get <$> DecentralizedLedger.transactions d0 = [replicate (Z.to_nat n) s] /\
      DecentralizedLedger.revealed_balances d0 = Ok (replicate (Z.to_nat n) s)).
Proof.
  assert (Hsame1 : (fun _ => tt) <$> SimpleLedger.__init__ n s
                   = (fun _ => tt) <$> Step1.SimpleLedger.__init__ n s).
  { unfold SimpleLedger.__init__, Step1.SimpleLedger.__init__.
    destruct (ones n) as [o|]; [|done]. rewrite !bind_Ok.
    by destruct (mul_scalar o s). }
  assert (Hsame2 : (fun _ => tt) <$> SimpleLedger.__init__ n s
                   = (fun _ => tt) <$> DecentralizedLedger.__init__ ws n s).
  { unfold SimpleLedger.__init__, DecentralizedLedger.__init__.
    destruct (ones n) as [o|]; [|done]. rewrite !bind_Ok.
    by destruct (mul_scalar o s). }
  split; [done|]. split; [done|]. split; [|split; [|split]].
  - intros Hbad. destruct (SimpleLedger.__init__ n s) as [l0|e] eqn:Hl;
      [|by eexists].
    apply init_inv in Hl as [[Hn Hs] _]. destruct Hbad; [lia | done].
  - intros l0 Hl. pose proof (init_wf _ _ _ Hl) as Hwf.
    apply init_inv in Hl as [[Hn Hs] ->].
    rewrite compute_balances_wf by done. simpl.
    rewrite wrap64_small by done. split; [lia|]. by split.
  - intros l0 [_ ->]%step1_init_inv. done.
  - intros d0 Hd.
    destruct (dinit_simulation ws n s d0 Hd) as [Hl Hdwf].
    pose proof (dinit_coherent ws n s d0 Hd) as Hco.
    rewrite revealed_balances_coherent by done.
    apply init_inv in Hl as [[Hn Hs] Heq].
    unfold DecentralizedLedger.reveal in Heq.
    rewrite wrap64_small in Heq by done.
    injection Heq as Hlog _ Hrun. rewrite Hlog. simpl. rewrite Hrun.
    split; [|done].
    revert Hd. unfold DecentralizedLedger.__init__.
    destruct (ones n) as [o|]; [|done]. rewrite bind_Ok.
    destruct (mul_scalar o s) as [i|]; [|done]. rewrite bind_Ok. simpl.
    by intros [= <-].
Qed.

Lemma constructors_seed_the_log_witness :
  let ws := ["jp_norgan"; "ubz"]%string in
  (fun _ => tt) <$> SimpleLedger.__init__ 10 100
  = (fun _ => tt) <$> Step1.SimpleLedger.__init__ 10 100 /\
  (fun _ => tt) <$> SimpleLedger.__init__ 10 100
  = (fun _ => tt) <$> DecentralizedLedger.__init__ ws 10 100 /\
  (10 < 0 \/ ~ int64 100 -> exists e, SimpleLedger.__init__ 10 100 = Raise e) /\
  (forall l0,
      SimpleLedger.__init__ 10 100 = Ok l0 ->
      0 <= 10 /\ int64 100 /\
      SimpleLedger.transactions l0 = [replicate (Z.to_nat 10) 100] /\
      outcome SimpleLedger.compute_balances l0
      = Ok (replicate (Z.to_nat 10) 100)) /\
  (forall l0,
      Step1.SimpleLedger.__init__ 10 100 = Ok l0 ->
      Step1.SimpleLedger.transactions l0 = [replicate (Z.to_nat 10) 100] /\
      outcome Step1.SimpleLedger.compute_balances l0
      = Ok (replicate (Z.to_nat 10) 100)) /\
  (forall d0,
      DecentralizedLedger.__init__ ws 10 100 = Ok d0 ->
      DecentralizedLedger.owners d0 = ws /\
      get <$> DecentralizedLedger.transactions d0
      = [replicate (Z.to_nat 10) 100] /\
      DecentralizedLedger.revealed_balances d0
      = Ok (replicate (Z.to_nat 10) 100)).
Proof.
  exact (constructors_seed_the_log (E := IdealEngine)
           (EC := IdealEngine_correct) ["jp_norgan"; "ubz"]%string 10 100).
Defined.

(** ** The log counts the calls that returned *)

Section Counting.
Context {E : MPCEngine}.

Lemma returns_spec n amt frm to :
  returns n (amt, frm, to) = true
  <-> valid_index n frm /\ valid_index n to /\ storable amt.
Proof.
  unfold returns, valid_index, storable.
  rewrite !andb_true_iff, !Z.leb_le, !Z.ltb_lt. tauto.
Qed.

Lemma returns_build_record n amt frm to :
  0 <= n <= int64_max ->
  if returns n (amt, frm, to)
  then exists r, build_record n amt frm to = Ok r
  else exists e, build_record n amt frm to = Raise e.
Proof.
  intros Hn. destruct (returns n (amt, frm, to)) eqn:Hret.
  - apply returns_spec in Hret as (? & ? & ?). eexists. by apply build_record_Ok.
  - apply build_record_Raise. intros (_ & ? & ? & ?).
    assert (returns n (amt, frm, to) = true) by (by apply returns_spec).
    congruence.
Qed.

Lemma returned_cons n call calls :
  returned n (call :: calls)
  = if returns n call then S (returned n calls) else returned n calls.
Proof.
  unfold returned. cbn [List.filter]. by destruct (returns n call).
Qed.

Lemma run_log_length n calls l :
  wf l -> SimpleLedger.num_accounts l = n ->
  length (SimpleLedger.transactions (SimpleLedger.run calls l))
  = (length (SimpleLedger.transactions l) + returned n calls)%nat.
Proof.
  revert l. induction calls as [|[[amt frm] to] calls IH]; intros l Hwf Hn.
  - unfold returned. simpl. lia.
  - simpl SimpleLedger.run. rewrite IH; [|by apply transact_wf|]; last first.
    { pose proof (session_num_accounts [(amt, frm, to)] l) as Hnum.
      simpl in Hnum. by rewrite Hnum. }
    pose proof (returns_build_record n amt frm to) as Hret.
    rewrite returned_cons.
    pose proof (wf_num_accounts _ Hwf) as Hb. rewrite Hn in Hb.
    specialize (Hret Hb). unfold exec.
    destruct (returns n (amt, frm, to)).
    + destruct Hret as [r Hr]. rewrite <- Hn in Hr.
      rewrite (transact_commit _ _ _ _ _ Hr) by apply Hwf. simpl.
      rewrite length_app. simpl. lia.
    + destruct Hret as [e Hr]. rewrite <- Hn in Hr.
      by rewrite (transact_raise _ _ _ _ _ Hr).
Qed.

Lemma drun_log_length n calls (d : DecentralizedLedger.t) :
  0 <= n <= int64_max -> DecentralizedLedger.num_accounts d = n ->
  length (DecentralizedLedger.transactions (DecentralizedLedger.run calls d))
  = (length (DecentralizedLedger.transactions d) + returned n calls)%nat.
Proof.
  intros Hb. revert d.
  induction calls as [|[[amt frm] to] calls IH]; intros d Hn.
  - unfold returned. simpl. lia.
  - simpl DecentralizedLedger.run. rewrite IH; last first.
    { pose proof (dsession_num_accounts [(amt, frm, to)] d) as Hnum.
      simpl in Hnum. by rewrite Hnum. }
    pose proof (returns_build_record n amt frm to Hb) as Hret.
    rewrite returned_cons. unfold exec.
    destruct (returns n (amt, frm, to)).
    + destruct Hret as [r Hr]. rewrite <- Hn in Hr.
      rewrite (dtransact_commit _ _ _ _ _ Hr). simpl.
      rewrite length_app. simpl. lia.
    + destruct Hret as [e Hr]. rewrite <- Hn in Hr.
      by rewrite (dtransact_raise _ _ _ _ _ Hr).
Qed.

End Counting.

(** X13. After any session the log holds the seed and one record for each
    call that returned, that is for each call whose indices lie in [-N, N)
    and whose amount fits 64 bits with its opposite: rejected transfers are
    logged (as zero records), raising calls are not.  Plaintext and shared
    ledger. *)
Theorem log_counts_returned_calls {E : MPCEngine} n s l0 ws d0 calls :
  SimpleLedger.__init__ n s = Ok l0 ->
  DecentralizedLedger.__init__ ws n s = Ok d0 ->
  length (SimpleLedger.transactions (SimpleLedger.run calls l0))
  = S (returned n calls) /\
  length (DecentralizedLedger.transactions (DecentralizedLedger.run calls d0))
  = S (returned n calls) /\
  forall amt frm to,
    returns n (amt, frm, to) = true
    <-> outcome (SimpleLedger.transact amt frm to) (SimpleLedger.run calls l0)
        = Ok tt.
Proof.
  intros Hl Hd. split; [|split].
  - rewrite (run_log_length n); [|by eapply init_wf|].
    + by apply init_inv in Hl as [_ ->].
    + by apply init_inv in Hl as [_ ->].
  - pose proof Hd as [Hn Hb]%dinit_num_accounts.
    rewrite (drun_log_length n) by done.
    revert Hd. unfold DecentralizedLedger.__init__.
    destruct (ones n) as [o|]; [|done]. rewrite bind_Ok.
    destruct (mul_scalar o s) as [i|]; [|done]. rewrite bind_Ok. simpl.
    by intros [= <-].
  - intros amt frm to.
    destruct (session_facts n s l0 calls Hl) as (Hwf & Hn & Hb).
    destruct (transact_outcome _ amt frm to Hwf) as [-> _].
    rewrite Hn, returns_spec. symmetry. by apply build_record_returns.
Qed.

Lemma log_counts_returned_calls_witness :
  let calls := [(5, 0, 1); (1000, 0, 1); (5, 10, 1); (-3, -10, 9)] in
  length (SimpleLedger.transactions (SimpleLedger.run calls default_ledger))
  = S (returned 10 calls) /\
  length (DecentralizedLedger.transactions
            (DecentralizedLedger.run calls default_shared_ledger))
  = S (returned 10 calls) /\
  forall amt frm to,
    returns 10 (amt, frm, to) = true
    <-> outcome (SimpleLedger.transact amt frm to)
          (SimpleLedger.run calls default_ledger)
        = Ok tt.
Proof.
  exact (log_counts_returned_calls (E := IdealEngine) 10 100 default_ledger
           ["jp_norgan"; "ubz"]%string default_shared_ledger
           [(5, 0, 1); (1000, 0, 1); (5, 10, 1); (-3, -10, 9)]
           eq_refl eq_refl).
Defined.

(** ** Step 1: the balances do not depend on the order of the calls *)

Section Order.

Lemma plus_swap (b r1 r2 : LongTensor) :
  plus (plus b r1) r2 = plus (plus b r2) r1.
Proof.
  unfold plus. revert r1 r2.
  induction b as [|x b IH]; intros [|y r1] [|z r2]; try done.
  change (zip_with ?f (x :: b) (y :: r1)) with (f x y :: zip_with f b r1).
  change (zip_with ?f (x :: b) (z :: r2)) with (f x z :: zip_with f b r2).
  change (zip_with ?f (?u :: ?v) (z :: r2)) with (f u z :: zip_with f v r2).
  change (zip_with ?f (?u :: ?v) (y :: r1)) with (f u y :: zip_with f v r1).
  rewrite IH, !wrap64_add_l.
  by replace (x + z + y) with (x + y + z) by lia.
Qed.

Lemma applied_swap n b c1 c2 :
  applied n (applied n b c1) c2 = applied n (applied n b c2) c1.
Proof.
  destruct c1 as [[a1 f1] t1], c2 as [[a2 f2] t2]. unfold applied.
  destruct (build_record n a1 f1 t1), (build_record n a2 f2 t2); try done.
  apply plus_swap.
Qed.

Lemma foldl_applied_permutation n calls calls' :
  Permutation calls calls' ->
  forall b, foldl (applied n) b calls = foldl (applied n) b calls'.
Proof.
  induction 1 as [|c calls calls' _ IH|c1 c2 calls|calls1 calls2 calls3 _ IH1 _ IH2];
    intros b; simpl.
  - done.
  - apply IH.
  - by rewrite applied_swap.
  - by rewrite IH1.
Qed.

Lemma step1_run_balances calls l b :
  wf1 l ->
  SimpleLedger.balances_of (Step1.SimpleLedger.transactions l) = Ok b ->
  outcome Step1.SimpleLedger.compute_balances (Step1.SimpleLedger.run calls l)
  = Ok (foldl (applied (Step1.SimpleLedger.num_accounts l)) b calls).
Proof.
  revert l b. induction calls as [|[[amt frm] to] calls IH]; intros l b Hwf Hb.
  - unfold outcome, Step1.SimpleLedger.compute_balances.
    rewrite bind_gets. simpl. by rewrite step1_balances_of.
  - simpl Step1.SimpleLedger.run. simpl foldl.
    pose proof (step1_transact_wf l amt frm to Hwf) as Hwf'.
    pose proof (step1_num_accounts [(amt, frm, to)] l) as Hnum.
    simpl in Hnum. rewrite <- Hnum.
    apply IH; [done|]. rewrite Hnum. clear Hnum.
    unfold exec in *. unfold applied.
    destruct (step1_transact_cases l amt frm to)
      as [(e & -> & ->)|(r & Hr & ->)]; [done|].
    rewrite Hr. simpl.
    destruct Hwf as (_ & Hne & Hall).
    apply build_record_inv in Hr as [_ ->].
    destruct (balances_snoc _ _ (transfer_record _ amt frm to) Hne Hall
                (length_transfer_record _ _ _ _)) as (b' & Hb' & _ & Hsnoc).
    rewrite Hsnoc. congruence.
Qed.

End Order.

(** X14. On the ledger of step 1 the balances depend on the calls of a
    session but not on their order: after two sessions that submit the same
    calls in different orders, [compute_balances()] returns the same
    balances, namely the seed to which the record of each returning call is
    added with wrap-around. *)
Theorem step1_balances_ignore_order n s l0 calls calls' :
  Step1.SimpleLedger.__init__ n s = Ok l0 ->
  Permutation calls calls' ->
  outcome Step1.SimpleLedger.compute_balances (Step1.SimpleLedger.run calls l0)
  = Ok (foldl (applied n) (replicate (Z.to_nat n) s) calls) /\
  outcome Step1.SimpleLedger.compute_balances (Step1.SimpleLedger.run calls' l0)
  = outcome Step1.SimpleLedger.compute_balances
      (Step1.SimpleLedger.run calls l0).
Proof.
  intros Hl Hperm.
  pose proof (step1_init_wf _ _ _ Hl) as Hwf.
  apply step1_init_inv in Hl as [_ ->].
  rewrite !(step1_run_balances _ _ (replicate (Z.to_nat n) s)) by done.
  simpl. split; [done|]. f_equal. symmetry.
  by apply foldl_applied_permutation.
Qed.

Lemma step1_balances_ignore_order_witness :
  let l0 := {| Step1.SimpleLedger.transactions := [replicate 10 100];
               Step1.SimpleLedger.num_accounts := 10 |} in
  let calls := [(150, 0, 1); (60, 1, 0); (5, 10, 1)] in
  let calls' := [(60, 1, 0); (5, 10, 1); (150, 0, 1)] in
  outcome Step1.SimpleLedger.compute_balances (Step1.SimpleLedger.run calls l0)
  = Ok (foldl (applied 10) (replicate (Z.to_nat 10) 100) calls) /\
  outcome Step1.SimpleLedger.compute_balances (Step1.SimpleLedger.run calls' l0)
  = outcome Step1.SimpleLedger.compute_balances
      (Step1.SimpleLedger.run calls l0).
Proof.
  apply (step1_balances_ignore_order 10 100
           {| Step1.SimpleLedger.transactions := [replicate 10 100];
              Step1.SimpleLedger.num_accounts := 10 |}
           [(150, 0, 1); (60, 1, 0); (5, 10, 1)]
           [(60, 1, 0); (5, 10, 1); (150, 0, 1)] eq_refl).
  exact (Permutation_cons_append [(60, 1, 0); (5, 10, 1)] (150, 0, 1)).
Defined.
